(** * RolloutStorageVAE: the running buffer and the trajectory ring buffer

    A shallow embedding of [src/Utils/storage_vae.py] and the properties of
    its [insert], [get_batch] and [get_running_batch] methods.

    Modelling conventions.
    - A tensor of shape [(time, slot, dim)] is a time-major nested list;
      its entries are exact numbers ([Z]): the class only copies entries and
      multiplies them by [0].
    - [curr_timestep], [insert_idx], [buffer_len] and the trajectory lengths
      are non-negative counters ([nat]).
    - A Python exception is a [Raise] in the [result] monad.
    - [np.random.uniform(0, 1)] is a stream of rationals read at a position
      that is threaded through [insert]; [np.random.choice] hands its index
      list to [get_batch]. *)

From Stdlib Require Import ZArith QArith Lia.
From stdpp Require Import base numbers option list.

Local Open Scope nat_scope.

(** ** Exceptions *)

Inductive exn := IndexError | TypeError | RuntimeError | AttributeError.

Inductive result (A : Type) :=
  | Ok (a : A)
  | Raise (e : exn).
Arguments Ok {A} a.
Arguments Raise {A} e.

Global Instance result_ret : MRet result := λ A a, Ok a.
Global Instance result_bind : MBind result := λ A B f m,
  match m with Ok a => f a | Raise e => Raise e end.

(** Python's [l[i]] on a sequence. *)
Definition item {A} (l : list A) (i : nat) : result A :=
  match l !! i with Some a => Ok a | None => Raise IndexError end.

(** [for x in xs: w = body(x, w)], stopping at the first exception. *)
Fixpoint for_each {A W} (body : A → W → result W) (xs : list A) (w : W) : result W :=
  match xs with
  | [] => Ok w
  | x :: xs' => w' ← body x w; for_each body xs' w'
  end.

(** ** Tensors *)

(** A feature vector, one time step (a vector per slot), and a whole
    time-major tensor. *)
Abbreviation vec := (list Z).
Abbreviation row := (list (list Z)).
Abbreviation tensor := (list (list (list Z))).

Definition zeros1 (d : nat) : vec := replicate d 0%Z.
Definition zeros2 (n d : nat) : row := replicate n (zeros1 d).
Definition zeros3 (t n d : nat) : tensor := replicate t (zeros2 n d).

(** [v *= 0] *)
Definition mul0_vec (v : vec) : vec := map (λ x, x * 0)%Z v.
Definition mul0_row (r : row) : row := map mul0_vec r.
Definition mul0 (a : tensor) : tensor := map mul0_row a.

(** [a[:, i]] *)
Definition col (i : nat) (a : tensor) : list vec := map (λ r, default [] (r !! i)) a.
(** [a[:, i] *= 0] *)
Definition mul0_col (i : nat) (a : tensor) : tensor := map (alter mul0_vec i) a.
(** [a[t] = x] *)
Definition set_row (t : nat) (x : row) (a : tensor) : tensor := <[t := x]> a.
(** [a[t, i] = v] *)
Definition set_at (t i : nat) (v : vec) (a : tensor) : tensor := alter (<[i := v]>) t a.
(** [a[:, j] = c] *)
Definition set_col (j : nat) (c : list vec) (a : tensor) : tensor :=
  zip_with (λ v r, <[j := v]> r) c a.
(** [l[j:j+n] = b] on one axis, for a block [b] of [n] entries that fits. *)
Definition set_slice {A} (j n : nat) (b : list A) (l : list A) : list A :=
  take j l ++ b ++ drop (j + n) l.
(** [a[:, j:j+n] = b] *)
Definition set_cols (j n : nat) (b : tensor) (a : tensor) : tensor :=
  zip_with (set_slice j n) b a.
(** [a[:, idxs, :]] *)
Definition gather (idxs : list nat) (a : tensor) : tensor :=
  map (λ r, map (λ j, default [] (r !! j)) idxs) a.

(** ** The nine per-step fields *)

Record fields (A : Type) := Fields {
  prev_state : A;
  next_state : A;
  actions : A;
  rewards : A;
  masks : A;
  bad_masks : A;
  done_task : A;
  done_episode : A;
  intrinsic_rewards : A
}.
Arguments Fields {A}.
Arguments prev_state {A}.
Arguments next_state {A}.
Arguments actions {A}.
Arguments rewards {A}.
Arguments masks {A}.
Arguments bad_masks {A}.
Arguments done_task {A}.
Arguments done_episode {A}.
Arguments intrinsic_rewards {A}.

Definition fields_map {A B} (f : A → B) (x : fields A) : fields B :=
  Fields (f (prev_state x)) (f (next_state x)) (f (actions x)) (f (rewards x))
         (f (masks x)) (f (bad_masks x)) (f (done_task x)) (f (done_episode x))
         (f (intrinsic_rewards x)).

(** One assignment statement per field; the intrinsic-reward one is guarded
    by [if self.save_intrinsic_reward]. *)
Definition assign {A B} (save : bool) (f : A → B → B) (x : fields A) (y : fields B) : fields B :=
  Fields (f (prev_state x) (prev_state y)) (f (next_state x) (next_state y))
         (f (actions x) (actions y)) (f (rewards x) (rewards y))
         (f (masks x) (masks y)) (f (bad_masks x) (bad_masks y))
         (f (done_task x) (done_task y)) (f (done_episode x) (done_episode y))
         (if save then f (intrinsic_rewards x) (intrinsic_rewards y) else intrinsic_rewards y).

(** One in-place statement per field, with the same guard. *)
Definition inplace {B} (save : bool) (g : B → B) (y : fields B) : fields B :=
  Fields (g (prev_state y)) (g (next_state y)) (g (actions y)) (g (rewards y))
         (g (masks y)) (g (bad_masks y)) (g (done_task y)) (g (done_episode y))
         (if save then g (intrinsic_rewards y) else intrinsic_rewards y).

(** ** Configuration and state *)

Record config := Config {
  num_processes : nat;
  max_traj_len : nat;
  zero_pad : bool;
  max_buffer_size : nat;
  obs_dim : nat;
  action_dim : nat;
  vae_buffer_add_thresh : Q;
  task_dim : option nat;
  save_intrinsic_reward : bool
}.

Record storage := Storage {
  insert_idx : nat;
  buffer_len : nat;
  permanent : fields tensor;
  tasks : option (list vec);
  trajectory_lens : list nat;
  curr_timestep : list nat;
  running : fields tensor;
  running_tasks : option (list vec)
}.

Definition with_running (s : storage) (cur : list nat) (r : fields tensor)
    (rt : option (list vec)) : storage :=
  Storage (insert_idx s) (buffer_len s) (permanent s) (tasks s) (trajectory_lens s) cur r rt.

Definition with_permanent (s : storage) (idx bl : nat) (p : fields tensor)
    (tk : option (list vec)) (lens : list nat) : storage :=
  Storage idx bl p tk lens (curr_timestep s) (running s) (running_tasks s).

(** [torch.zeros((max_traj_len, n, dim))] for each field. *)
Definition zeros_fields (c : config) (n : nat) : fields tensor :=
  let T := max_traj_len c in
  Fields (zeros3 T n (obs_dim c)) (zeros3 T n (obs_dim c)) (zeros3 T n (action_dim c))
         (zeros3 T n 1) (zeros3 T n 1) (zeros3 T n 1) (zeros3 T n 1) (zeros3 T n 1)
         (zeros3 T n 1).

(** [__init__].  With [max_buffer_size = 0] the permanent attributes are not
    created; they are then empty here and never touched. *)
Definition init (c : config) : storage :=
  Storage 0 0
    (zeros_fields c (max_buffer_size c))
    (if 0 <? max_buffer_size c then zeros2 (max_buffer_size c) <$> task_dim c else None)
    (replicate (max_buffer_size c) 0)
    (replicate (num_processes c) 0)
    (zeros_fields c (num_processes c))
    (zeros2 (num_processes c) <$> task_dim c).

(** ** [get_running_batch] *)

Definition get_running_batch (c : config) (s : storage)
    : tensor * tensor * tensor * tensor * list nat :=
  let rewards_ :=
    if save_intrinsic_reward c then intrinsic_rewards (running s) else rewards (running s) in
  (prev_state (running s), next_state (running s), actions (running s), rewards_,
   curr_timestep s).

(** ** [insert] *)

Section Insert.
Variable c : config.
(** The uniform draws of [np.random.uniform(0, 1)], in call order. *)
Variable uniform : nat → Q.

Let N := num_processes c.
Let T := max_traj_len c.
Let M := max_buffer_size c.
Let save := save_intrinsic_reward c.

(** [len(np.unique(self.curr_timestep)) == 1] *)
Definition one_unique (cur : list nat) : bool :=
  match cur with
  | [] => false
  | t :: ts => forallb (Nat.eqb t) ts
  end.

(** [self.vae_buffer_add_thresh >= np.random.uniform(0, 1)] for the draw [u]. *)
Definition gate (u : Q) : bool := Qle_bool u (vae_buffer_add_thresh c).

(** Lines 81-94: the vectorised write at the shared offset. *)
Definition fast_insert (x : fields row) (task : option (list vec)) (s : storage)
    : result storage :=
  t ← item (curr_timestep s) 0;
  if T <=? t then Raise IndexError else
  Ok (with_running s
        (map S (curr_timestep s))
        (assign save (set_row t) x (running s))
        (match task with Some tk => Some tk | None => running_tasks s end)).

(** [prev_state[i]], ..., one item per field for actor [i]; line 160 reads
    [done_task[i]] for the episode-completion field. *)
Definition items (x : fields row) (i : nat) : result (fields vec) :=
  ps ← item (prev_state x) i;
  ns ← item (next_state x) i;
  rw ← item (rewards x) i;
  mk ← item (masks x) i;
  bm ← item (bad_masks x) i;
  ir ← (if save then item (intrinsic_rewards x) i else Ok []);
  ac ← item (actions x) i;
  dt ← item (done_task x) i;
  Ok (Fields ps ns ac rw mk bm dt dt ir).

(** Lines 151-164: the write of actor [i] at its own offset. *)
Definition slow_insert (x : fields row) (i : nat) (s : storage) : result storage :=
  t ← item (curr_timestep s) i;
  xi ← items x i;
  if T <=? t then Raise IndexError else
  match running_tasks s with
  | None => Raise TypeError
  | Some rt =>
      (* [self.running_tasks[i] is None] is false for a tensor row *)
      Ok (with_running s
            (<[i := S t]> (curr_timestep s))
            (assign save (set_at t i) xi (running s))
            (Some rt))
  end.

(** The wrap test shared by both admission shapes, for a block of [n]
    trajectories: the new [(buffer_len, insert_idx)]. *)
Definition where_to_insert (n : nat) (s : storage) : nat * nat :=
  if M <? insert_idx s + n then (insert_idx s, 0)
  else (buffer_len s `max` insert_idx s, insert_idx s).

(** Lines 103-127: the whole running buffer goes to the ring buffer as one
    block of [num_processes] trajectories. *)
Definition write_all (s : storage) : result storage :=
  let '(bl, j) := where_to_insert N s in
  if M <? j + N then Raise RuntimeError else
  Ok (with_permanent s (j + N) bl
        (assign save (set_cols j N) (running s) (permanent s))
        (match tasks s, running_tasks s with
         | Some tk, Some rt => Some (set_slice j N rt tk)
         | tk, _ => tk
         end)
        (set_slice j N (curr_timestep s) (trajectory_lens s))).

(** Lines 130-142 *)
Definition reset_all (s : storage) : storage :=
  with_running s
    (map (λ t, t * 0) (curr_timestep s))
    (inplace save mul0 (running s))
    (mul0_row <$> running_tasks s).

(** Lines 174-197: the trajectory of actor [i] goes to the ring buffer. *)
Definition write_one (i : nat) (s : storage) : result storage :=
  let '(bl, j) := where_to_insert 1 s in
  tk ← match tasks s with
       | None => Ok None
       | Some tk =>
           match running_tasks s with
           | None => Raise TypeError
           | Some rt => v ← item rt i; Ok (Some (<[j := v]> tk))
           end
       end;
  t ← item (curr_timestep s) i;
  Ok (with_permanent s (j + 1) bl
        (assign save (λ a p, set_col j (col i a) p) (running s) (permanent s))
        tk
        (<[j := t]> (trajectory_lens s))).

(** Lines 200-212 *)
Definition reset_one (i : nat) (s : storage) : storage :=
  with_running s
    (<[i := 0]> (curr_timestep s))
    (inplace save (mul0_col i) (running s))
    (alter mul0_vec i <$> running_tasks s).

(** The admission gate around a write (lines 100-101 and 171-172): the draw
    is taken only when the ring buffer exists. *)
Definition gated_write (write : storage → result storage) (w : storage * nat)
    : result (storage * nat) :=
  let '(s, k) := w in
  if 0 <? M then
    if gate (uniform k) then s' ← write s; Ok (s', S k)
    else Ok (s, S k)
  else Ok (s, k).

(** Lines 99-144 *)
Definition dump_all (w : storage * nat) : result (storage * nat) :=
  '(s, k) ← gated_write write_all w;
  Ok (reset_all s, k).

(** Lines 170-212 *)
Definition dump_one (i : nat) (w : storage * nat) : result (storage * nat) :=
  '(s, k) ← gated_write (write_one i) w;
  Ok (reset_one i s, k).

(** Lines 150-212: the body of [for i in range(self.num_processes)]. *)
Definition actor_step (x : fields row) (done : list bool)
    (already_inserted already_reset : bool) (i : nat) (w : storage * nat)
    : result (storage * nat) :=
  w1 ← (if already_inserted then Ok w
        else s' ← slow_insert x i w.1; Ok (s', w.2));
  if already_reset then Ok w1
  else
    d ← item done i;
    if d : bool then dump_one i w1 else Ok w1.

(** [done.sum()] *)
Definition sum_done (done : list bool) : nat := length (filter (λ d, d = true) done).

Definition insert (x : fields row) (done : list bool) (task : option (list vec))
    (w : storage * nat) : result (storage * nat) :=
  let '(s, k) := w in
  '(s1, already_inserted) ←
     (if one_unique (curr_timestep s)
      then s' ← fast_insert x task s; Ok (s', true)
      else Ok (s, false));
  '(w2, already_reset) ←
     (if sum_done done =? N
      then w' ← dump_all (s1, k); Ok (w', true)
      else Ok ((s1, k), false));
  if negb already_inserted || negb already_reset
  then for_each (actor_step x done already_inserted already_reset) (seq 0 N) w2
  else Ok w2.

End Insert.

(** ** [get_batch] *)

(** The three shapes of the tuple that [get_batch] returns. *)
Inductive batch :=
  | Batch (prev_obs next_obs acts rews : tensor) (tks : option (list vec))
      (lens : list nat)
  | ValueBatch (prev_obs next_obs acts rews : tensor) (tks : option (list vec))
      (mks bad_mks : tensor) (lens : list nat)
  | MemoryBatch (prev_obs next_obs acts rews : tensor) (tks : list vec)
      (done_tasks done_episodes : tensor) (lens : list nat).

Section GetBatch.
Variable c : config.
(** [choice n k replace] is [np.random.choice(range(n), k, replace=replace)]. *)
Variable choice : nat → nat → bool → list nat.

(** The indices that [get_batch] draws: lines 222-225. *)
Definition rollout_indices (s : storage) (batchsize : nat) (replace : bool) : list nat :=
  choice (buffer_len s) (buffer_len s `min` batchsize) replace.

(** [np.array(l)[idxs]] *)
Fixpoint take_items {A} (l : list A) (idxs : list nat) : result (list A) :=
  match idxs with
  | [] => Ok []
  | j :: idxs' => a ← item l j; r ← take_items l idxs'; Ok (a :: r)
  end.

Definition get_batch (s : storage) (batchsize : nat)
    (replace value_prediction memory_batch : bool) : result batch :=
  if max_buffer_size c =? 0 then Raise AttributeError else
  let idxs := rollout_indices s batchsize replace in
  let batchsize := buffer_len s `min` batchsize in
  lens ← take_items (trajectory_lens s) idxs;
  let prev_obs := gather idxs (prev_state (permanent s)) in
  let next_obs := gather idxs (next_state (permanent s)) in
  let acts := gather idxs (actions (permanent s)) in
  let rews :=
    if save_intrinsic_reward c && value_prediction
    then gather idxs (intrinsic_rewards (permanent s))
    else gather idxs (rewards (permanent s)) in
  let tks := (λ tk, map (λ j, default [] (tk !! j)) idxs) <$> tasks s in
  if value_prediction then
    Ok (ValueBatch prev_obs next_obs acts rews tks
          (zeros2 batchsize 1 :: gather idxs (masks (permanent s)))
          (zeros2 batchsize 1 :: gather idxs (bad_masks (permanent s)))
          lens)
  else if memory_batch then
    match tks with
    | None => Raise AttributeError
    | Some tk =>
        Ok (MemoryBatch prev_obs next_obs acts rews tk
              (gather idxs (done_task (permanent s)))
              (gather idxs (done_episode (permanent s)))
              lens)
    end
  else Ok (Batch prev_obs next_obs acts rews tks lens).

(** [__len__] and [ready_for_update] *)
Definition len (s : storage) : nat := buffer_len s.
Definition ready_for_update (s : storage) : bool := 0 <? len s.

End GetBatch.

(** The trajectories of a returned batch: the columns of its tensors. *)
Definition batch_lens (b : batch) : list nat :=
  match b with
  | Batch _ _ _ _ _ l | ValueBatch _ _ _ _ _ _ _ l | MemoryBatch _ _ _ _ _ _ _ l => l
  end.
Definition batch_prev_obs (b : batch) : tensor :=
  match b with
  | Batch p _ _ _ _ _ | ValueBatch p _ _ _ _ _ _ _ | MemoryBatch p _ _ _ _ _ _ _ => p
  end.

(** What numpy documents for [np.random.choice(range(n), k, replace)] with
    [k <= n]: [k] indices below [n], pairwise distinct unless [replace]. *)
Definition choice_spec (choice : nat → nat → bool → list nat) : Prop :=
  ∀ n k replace, k ≤ n →
    length (choice n k replace) = k ∧
    Forall (λ j, j < n) (choice n k replace) ∧
    (replace = false → NoDup (choice n k replace)).

(** ** Reachable states *)

(** The states that a storage goes through: construction, then any number
    of [insert] calls that return. *)
Inductive reachable (c : config) (uniform : nat → Q) : storage * nat → Prop :=
  | reach_init : reachable c uniform (init c, 0)
  | reach_insert w x done task w' :
      reachable c uniform w →
      insert c uniform x done task w = Ok w' →
      reachable c uniform w'.


(** A sequence of [insert] calls. *)
Record call := Call {
  call_x : fields row;
  call_done : list bool;
  call_task : option (list vec)
}.

Definition inserts (c : config) (uniform : nat → Q) (calls : list call)
    (w : storage * nat) : result (storage * nat) :=
  for_each (λ cl, insert c uniform (call_x cl) (call_done cl) (call_task cl)) calls w.

(** The state after a sequence of calls from construction (the constructed
    state when one of them raises). *)
Definition state_after (c : config) (uniform : nat → Q) (calls : list call)
    : storage * nat :=
  match inserts c uniform calls (init c, 0) with
  | Ok w => w
  | Raise _ => (init c, 0)
  end.

(** The slow path on its own: the per-actor writes of one batch, one actor
    at a time. *)
Definition slow_path (c : config) (x : fields row) (s : storage) : result storage :=
  for_each (slow_insert c x) (seq 0 (num_processes c)) s.

(** ** Predicates *)

(** The ring-buffer half of the state. *)
Definition ring_part (s : storage)
    : nat * nat * fields tensor * option (list vec) * list nat :=
  (insert_idx s, buffer_len s, permanent s, tasks s, trajectory_lens s).

(** The running-buffer half of the state. *)
Definition running_part (s : storage) : list nat * fields tensor * option (list vec) :=
  (curr_timestep s, running s, running_tasks s).

Definition ring_inv (c : config) (s : storage) : Prop :=
  insert_idx s ≤ max_buffer_size c ∧ buffer_len s ≤ max_buffer_size c ∧
  length (trajectory_lens s) = max_buffer_size c ∧
  length (curr_timestep s) = num_processes c.

(** A property of every field that exists: the intrinsic-reward one only
    when [save]. *)
Definition fields_Forall {A} (save : bool) (P : A → Prop) (x : fields A) : Prop :=
  P (prev_state x) ∧ P (next_state x) ∧ P (actions x) ∧ P (rewards x) ∧
  P (masks x) ∧ P (bad_masks x) ∧ P (done_task x) ∧ P (done_episode x) ∧
  (save = true → P (intrinsic_rewards x)).

Definition fields_Forall2 {A B} (save : bool) (R : A → B → Prop)
    (x : fields A) (y : fields B) : Prop :=
  R (prev_state x) (prev_state y) ∧ R (next_state x) (next_state y) ∧
  R (actions x) (actions y) ∧ R (rewards x) (rewards y) ∧
  R (masks x) (masks y) ∧ R (bad_masks x) (bad_masks y) ∧
  R (done_task x) (done_task y) ∧ R (done_episode x) (done_episode y) ∧
  (save = true → R (intrinsic_rewards x) (intrinsic_rewards y)).

Definition zero_vec (v : vec) : Prop := Forall (λ z, z = 0%Z) v.
(** Every entry of slot [i] is zero, at every time step. *)
Definition zero_col (i : nat) (a : tensor) : Prop := Forall zero_vec (col i a).

(** A configuration with another flag or threshold. *)
Definition with_save (c : config) (b : bool) : config :=
  Config (num_processes c) (max_traj_len c) (zero_pad c) (max_buffer_size c)
         (obs_dim c) (action_dim c) (vae_buffer_add_thresh c) (task_dim c) b.

Definition with_thresh (c : config) (p : Q) : config :=
  Config (num_processes c) (max_traj_len c) (zero_pad c) (max_buffer_size c)
         (obs_dim c) (action_dim c) p (task_dim c) (save_intrinsic_reward c).

(** ** Concrete inputs *)

(** A batch whose fields are scalars per actor: the states, and the two
    completion flags (as numbers) shared by all actors. *)
Definition scalar_batch (obs : list Z) (dt de : Z) : fields row :=
  let one := map (λ _, [1%Z]) obs in
  Fields (map (λ z, [z]) obs) (map (λ z, [z + 1]%Z) obs) one
         (map (λ z, [z]) obs) one one
         (map (λ _, [dt]) obs) (map (λ _, [de]) obs) (map (λ z, [z * 2]%Z) obs).

Definition always (u : Q) : nat → Q := λ _, u.

(** One actor, horizon 1, capacity 1. *)
Definition cfg_1_1_1 : config := Config 1 1 true 1 1 1 1%Q None false.
(** One actor, horizon 2, capacity 2, admission probability [p]. *)
Definition cfg_1_2_2 (p : Q) : config := Config 1 2 true 2 1 1 p (Some 1) false.
(** Two actors, horizon 2, capacity 2. *)
Definition cfg_2_2_2 : config := Config 2 2 true 2 1 1 1%Q (Some 1) true.

Definition one_done_call (z : Z) : call := Call (scalar_batch [z] 1 1) [true] None.

(** Two calls that end an episode each, for one actor. *)
Definition two_done_calls : list call := [one_done_call 5; one_done_call 6].



(** A batch whose episode-completion flags differ from its task-completion
    flags. *)
Definition batch_flags_differ : fields row := scalar_batch [3; 4]%Z 0 1.



(** ** Feeding the singular admission *)

(** A running buffer handed to the singular admission, and the actor whose
    trajectory is dumped from it. *)
Record source := Source {
  src_cur : list nat;
  src_running : fields tensor;
  src_tasks : option (list vec);
  src_actor : nat
}.

Definition write_from (c : config) (a : source) (s : storage) : result storage :=
  write_one c (src_actor a) (with_running s (src_cur a) (src_running a) (src_tasks a)).

(** Trajectories dumped one at a time, every one of them written. *)
Definition write_seq (c : config) (l : list source) (s : storage) : result storage :=
  for_each (write_from c) l s.

(** The running tensors span the horizon, and the dumped actor has a cursor
    and, if tasks are stored, a task descriptor. *)
Definition source_ok (c : config) (a : source) : Prop :=
  src_actor a < length (src_cur a) ∧
  fields_Forall (save_intrinsic_reward c) (λ r : tensor, length r = max_traj_len c)
    (src_running a) ∧
  (is_Some (task_dim c) → ∃ rt, src_tasks a = Some rt ∧ src_actor a < length rt).

(** Slot [j] of the ring buffer holds the trajectory of [a]: every stored
    series, the length and the task. *)
Definition holds (c : config) (s : storage) (j : nat) (a : source) : Prop :=
  fields_Forall2 (save_intrinsic_reward c)
    (λ p r : tensor, col j p = col (src_actor a) r) (permanent s) (src_running a) ∧
  trajectory_lens s !! j = src_cur a !! src_actor a ∧
  (∀ tk, tasks s = Some tk → ∃ rt, src_tasks a = Some rt ∧ tk !! j = rt !! src_actor a).

(** The shape of one stored tensor and of the ring buffer. *)
Definition tensor_shape (t n : nat) (p : tensor) : Prop :=
  length p = t ∧ Forall (λ r, length r = n) p.

Definition ring_shape (c : config) (s : storage) : Prop :=
  fields_Forall true (tensor_shape (max_traj_len c) (max_buffer_size c)) (permanent s) ∧
  length (trajectory_lens s) = max_buffer_size c ∧
  (∀ tk, tasks s = Some tk → length tk = max_buffer_size c ∧ is_Some (task_dim c)).

(** After [n] trajectories of [l] have been written. *)
Definition wrap_inv (c : config) (l : list source) (n : nat) (s : storage) : Prop :=
  ring_shape c s ∧
  insert_idx s = (if n =? 0 then 0 else (n - 1) mod max_buffer_size c + 1) ∧
  buffer_len s ≤ max_buffer_size c ∧
  ∀ m a, m < n → n ≤ m + max_buffer_size c → l !! m = Some a →
         holds c s (m mod max_buffer_size c) a.

(** A one-step trajectory of a single actor, with state and task [z]. *)
Definition unit_source (z : Z) : source :=
  Source [1] (fields_map (λ r : row, [r; [[0%Z]]]) (scalar_batch [z] 1 1)) (Some [[z]]) 0.

(** Three actors, horizon 4, capacity 5, admission probability 1. *)
Definition cfg_3_4_5 : config := Config 3 4 true 5 1 1 1%Q (Some 1) false.

(** The episode of the end-to-end scenario: actor 0 finishes at step 2,
    actors 1 and 2 at step 4.  Actor 0 keeps stepping afterwards, as every
    call carries a record for every actor; [d3] and [d4] are its completion
    flags at steps 3 and 4. *)
Definition episode_calls (d3 d4 : bool) : list call :=
  let task := Some [[7]; [8]; [9]]%Z in
  [Call (scalar_batch [1; 2; 3]%Z 0 0) [false; false; false] task;
   Call (scalar_batch [4; 5; 6]%Z 0 0) [true; false; false] task;
   Call (scalar_batch [7; 8; 9]%Z 0 0) [d3; false; false] task;
   Call (scalar_batch [10; 11; 12]%Z 0 0) [d4; true; true] task].

(** Two steps of one actor that does not finish. *)
Definition two_step_calls : list call :=
  [Call (scalar_batch [5]%Z 0 0) [false] None;
   Call (scalar_batch [6]%Z 0 0) [false] None].

(** Two actors, horizon 2, capacity 2, no task descriptors. *)
Definition cfg_2_2_2_no_task : config := Config 2 2 true 2 1 1 1%Q None false.
(** Two actors, capacity 1. *)
Definition cfg_2_2_1 : config := Config 2 2 true 1 1 1 1%Q (Some 1) false.
(** One actor, no permanent buffer. *)
Definition cfg_1_2_0 : config := Config 1 2 true 0 1 1 1%Q (Some 1) false.

(** Actor 0 of two finishes at the first step. *)
Definition first_done_call : call :=
  Call (scalar_batch [3; 4]%Z 0 0) [true; false] None.





(** The running buffer of a state as the source of actor [i]'s trajectory. *)
Definition source_of (s : storage) (i : nat) : source :=
  Source (curr_timestep s) (running s) (running_tasks s) i.

(** The other tensors of a returned batch. *)
Definition batch_next_obs (b : batch) : tensor :=
  match b with
  | Batch _ p _ _ _ _ | ValueBatch _ p _ _ _ _ _ _ | MemoryBatch _ p _ _ _ _ _ _ => p
  end.
Definition batch_acts (b : batch) : tensor :=
  match b with
  | Batch _ _ p _ _ _ | ValueBatch _ _ p _ _ _ _ _ | MemoryBatch _ _ p _ _ _ _ _ => p
  end.
Definition batch_rews (b : batch) : tensor :=
  match b with
  | Batch _ _ _ p _ _ | ValueBatch _ _ _ p _ _ _ _ | MemoryBatch _ _ _ p _ _ _ _ => p
  end.

(** The state of a one-actor storage after two one-step trajectories. *)
Definition two_written : storage :=
  match write_seq (cfg_1_2_2 1) [unit_source 5; unit_source 6] (init (cfg_1_2_2 1)) with
  | Ok s => s
  | Raise _ => init (cfg_1_2_2 1)
  end.








(** What the loop of [insert] keeps before an actor whose cursor is at the
    horizon: a running task tensor, and the cursors of the actors from [j]
    on. *)
Definition overflow_inv (c : config) (s : storage) (j : nat) (w : storage * nat) : Prop :=
  is_Some (running_tasks w.1) ∧
  length (curr_timestep w.1) = num_processes c ∧
  ∀ i, j ≤ i → curr_timestep w.1 !! i = curr_timestep s !! i.

(** Actor 1 of two runs to the horizon while actor 0 finishes early. *)
Definition overflow_calls : list call :=
  [Call (scalar_batch [3; 4]%Z 0 0) [true; false] (Some [[7]; [8]]%Z);
   Call (scalar_batch [5; 6]%Z 0 0) [false; false] None].

(** * Properties *)

(** ** The [result] monad and loops *)

Lemma bind_Ok {A B} (m : result A) (f : A → result B) (b : B) :
  m ≫= f = Ok b → ∃ a, m = Ok a ∧ f a = Ok b.
Proof. destruct m as [a|e]; simpl; [eauto | discriminate]. Qed.

Ltac inv_res :=
  repeat match goal with
  | H : Ok _ = Ok _ |- _ => inversion H; clear H; subst
  | H : Raise _ = Ok _ |- _ => discriminate H
  | H : _ ≫= _ = Ok _ |- _ => apply bind_Ok in H as (? & ? & ?)
  | H : (let '(_, _) := ?p in _) = Ok _ |- _ => destruct p; simpl in H
  | H : (if ?b then _ else _) = Ok _ |- _ => destruct b eqn:?
  | H : match ?o with Some _ => _ | None => _ end = Ok _ |- _ => destruct o eqn:?
  end.

Ltac ltb_prop :=
  repeat match goal with
  | H : (_ <? _) = true |- _ => apply Nat.ltb_lt in H
  | H : (_ <? _) = false |- _ => apply Nat.ltb_ge in H
  | H : (_ <=? _) = true |- _ => apply Nat.leb_le in H
  | H : (_ <=? _) = false |- _ => apply Nat.leb_gt in H
  | H : (_ =? _) = true |- _ => apply Nat.eqb_eq in H
  | H : (_ =? _) = false |- _ => apply Nat.eqb_neq in H
  end.

Lemma for_each_inv {A W} (P : W → Prop) (body : A → W → result W) xs :
  (∀ x w w', P w → body x w = Ok w' → P w') →
  ∀ w w', P w → for_each body xs w = Ok w' → P w'.
Proof.
  intros Hbody. induction xs as [|x xs IH]; simpl; intros w w' Hw Hrun.
  - by inv_res.
  - inv_res. eauto.
Qed.

Lemma for_each_app {A W} (body : A → W → result W) xs ys w :
  for_each body (xs ++ ys) w = for_each body xs w ≫= for_each body ys.
Proof.
  revert w. induction xs as [|x xs IH]; intros w; simpl; [done|].
  destruct (body x w) as [w1|e]; simpl; [apply IH | done].
Qed.

(** ** The bounds of the ring cursor *)
Lemma fast_insert_ring_inv c x task s s' :
  ring_inv c s → fast_insert c x task s = Ok s' → ring_inv c s'.
Proof.
  unfold ring_inv, fast_insert. intros (Hi & Hb & Hl & Hc) Hrun. inv_res. simpl.
  rewrite length_map. done.
Qed.

Lemma slow_insert_ring_inv c x i s s' :
  ring_inv c s → slow_insert c x i s = Ok s' → ring_inv c s'.
Proof.
  unfold ring_inv, slow_insert. intros (Hi & Hb & Hl & Hc) Hrun. inv_res. simpl.
  rewrite length_insert. done.
Qed.

Lemma write_all_ring_inv c s s' :
  ring_inv c s → write_all c s = Ok s' → ring_inv c s'.
Proof.
  unfold ring_inv, write_all, where_to_insert, set_slice. intros (Hi & Hb & Hl & Hc) Hrun.
  destruct (max_buffer_size c <? insert_idx s + num_processes c) eqn:E; inv_res; simpl;
  rewrite ?length_app, ?length_take, ?length_drop; 
  repeat match goal with H : (_ <? _) = _ |- _ => first [apply Nat.ltb_lt in H | apply Nat.ltb_ge in H] end; lia.
Qed.

Lemma write_one_ring_inv c i s s' :
  0 < max_buffer_size c →
  ring_inv c s → write_one c i s = Ok s' → ring_inv c s'.
Proof.
  unfold ring_inv, write_one, where_to_insert. intros HM (Hi & Hb & Hl & Hc) Hrun.
  destruct (max_buffer_size c <? insert_idx s + 1) eqn:E; inv_res; simpl;
    rewrite ?length_insert; ltb_prop; lia.
Qed.

Lemma reset_all_ring_inv c s : ring_inv c s → ring_inv c (reset_all c s).
Proof. unfold ring_inv, reset_all. simpl. by rewrite length_map. Qed.

Lemma reset_one_ring_inv c i s : ring_inv c s → ring_inv c (reset_one c i s).
Proof. unfold ring_inv, reset_one. simpl. by rewrite length_insert. Qed.

Lemma gated_write_ring_inv c u write w w' :
  (∀ s s', 0 < max_buffer_size c → ring_inv c s → write s = Ok s' → ring_inv c s') →
  ring_inv c w.1 → gated_write c u write w = Ok w' → ring_inv c w'.1.
Proof.
  unfold gated_write. intros Hw Hinv Hrun. destruct w as [s k]. simpl in *.
  inv_res; simpl; ltb_prop; eauto.
Qed.

Lemma dump_all_ring_inv c u w w' :
  ring_inv c w.1 → dump_all c u w = Ok w' → ring_inv c w'.1.
Proof.
  unfold dump_all. intros Hinv Hrun. inv_res. simpl.
  apply reset_all_ring_inv.
  eapply (gated_write_ring_inv c u _ w (_, _)); eauto using write_all_ring_inv.
Qed.

Lemma dump_one_ring_inv c u i w w' :
  ring_inv c w.1 → dump_one c u i w = Ok w' → ring_inv c w'.1.
Proof.
  unfold dump_one. intros Hinv Hrun. inv_res. simpl.
  apply reset_one_ring_inv.
  eapply (gated_write_ring_inv c u _ w (_, _)); eauto using write_one_ring_inv.
Qed.

Lemma actor_step_ring_inv c u x done ai ar i w w' :
  ring_inv c w.1 → actor_step c u x done ai ar i w = Ok w' → ring_inv c w'.1.
Proof.
  unfold actor_step. intros Hinv Hrun. destruct w as [s k]. simpl in *.
  inv_res; simpl in *; eauto using slow_insert_ring_inv, dump_one_ring_inv.
  all: try (eapply dump_one_ring_inv; [|eassumption]; simpl; eauto using slow_insert_ring_inv).
Qed.

Lemma insert_ring_inv c u x done task w w' :
  ring_inv c w.1 → insert c u x done task w = Ok w' → ring_inv c w'.1.
Proof.
  unfold insert. intros Hinv Hrun. destruct w as [s k]. simpl in *.
  apply bind_Ok in Hrun as ([s1 ai] & H1 & Hrun).
  apply bind_Ok in Hrun as ([w2 ar] & H2 & Hrun).
  assert (ring_inv c s1) as Hs1.
  { clear Hrun H2. destruct (one_unique (curr_timestep s)); inv_res;
      eauto using fast_insert_ring_inv. }
  assert (ring_inv c w2.1) as Hw2.
  { clear Hrun H1. destruct (sum_done done =? num_processes c); inv_res; [|done].
    eapply dump_all_ring_inv; [|eassumption]. done. }
  clear H1 H2. destruct (negb ai || negb ar); [|inv_res; assumption].

  eapply (for_each_inv (λ w, ring_inv c w.1)); [|exact Hw2|eassumption].
  intros i w w''. apply actor_step_ring_inv.
Qed.

Lemma init_ring_inv c : ring_inv c (init c).
Proof. unfold ring_inv, init. simpl. rewrite !length_replicate. lia. Qed.

Lemma reachable_ring_inv c u w : reachable c u w → ring_inv c w.1.
Proof.
  induction 1 as [|w x done task w' _ IH Hrun].
  - apply init_ring_inv.
  - eapply insert_ring_inv; eassumption.
Qed.

Lemma inserts_reachable c u calls w w' :
  reachable c u w → inserts c u calls w = Ok w' → reachable c u w'.
Proof.
  unfold inserts. revert w. induction calls as [|cl calls IH]; simpl; intros w Hw Hrun.
  - by inv_res.
  - apply bind_Ok in Hrun as (w1 & H1 & Hrun).
    eapply IH; [|eassumption]. eapply reach_insert; eassumption.
Qed.

Lemma state_after_reachable c u calls : reachable c u (state_after c u calls).
Proof.
  unfold state_after. destruct (inserts c u calls (init c, 0)) as [w|e] eqn:E.
  - eapply inserts_reachable; [apply reach_init | exact E].
  - apply reach_init.
Qed.

(** C6 (as amended): in every reachable state [insert_idx] and [buffer_len]
    are at most [max_buffer_size], and every [insert] call that returns
    keeps them so.  The cursor may equal the capacity: the wrap is tested
    before the next write, not after this one. *)
Theorem C6_ring_bounds c u w :
  reachable c u w →
  (insert_idx w.1 ≤ max_buffer_size c ∧ buffer_len w.1 ≤ max_buffer_size c) ∧
  ∀ x done task w', insert c u x done task w = Ok w' →
    insert_idx w'.1 ≤ max_buffer_size c ∧ buffer_len w'.1 ≤ max_buffer_size c.
Proof.
  intros Hw. pose proof (reachable_ring_inv c u w Hw) as Hinv. split.
  - destruct Hinv as (? & ? & _). done.
  - intros x done task w' Hrun.
    destruct (insert_ring_inv c u x done task w w' Hinv Hrun) as (? & ? & _). done.
Qed.

Lemma C6_ring_bounds_witness :
  reachable cfg_1_1_1 (always 0) (state_after cfg_1_1_1 (always 0) [one_done_call 5]) ∧
  insert_idx (state_after cfg_1_1_1 (always 0) [one_done_call 5]).1 ≤ 1.
Proof.
  split.
  - apply state_after_reachable.
  - apply (C6_ring_bounds cfg_1_1_1 (always 0) _ (state_after_reachable _ _ _)).
Defined.

(** C6 (as stated) fails: with capacity 1, the first admitted trajectory
    leaves [insert_idx = 1 = max_buffer_size]. *)
Lemma C6_cursor_reaches_capacity :
  ∃ w, reachable cfg_1_1_1 (always 0) w ∧ 0 < max_buffer_size cfg_1_1_1 ∧
       ¬ (insert_idx w.1 < max_buffer_size cfg_1_1_1 ∧
          buffer_len w.1 ≤ max_buffer_size cfg_1_1_1).
Proof.
  exists (state_after cfg_1_1_1 (always 0) [one_done_call 5]). split; [|split].
  - apply state_after_reachable.
  - simpl. lia.
  - intros [H _]. vm_compute in H. lia.
Qed.

(** ** The running batch *)

(** C10: with intrinsic-reward tracking enabled [get_running_batch] returns
    the running intrinsic rewards in the reward position, with tracking
    disabled the running environment rewards; the four other components are
    the same. *)
Theorem C10_running_batch_rewards (c : config) (s : storage) :
  get_running_batch (with_save c true) s =
    (prev_state (running s), next_state (running s), actions (running s),
     intrinsic_rewards (running s), curr_timestep s) ∧
  get_running_batch (with_save c false) s =
    (prev_state (running s), next_state (running s), actions (running s),
     rewards (running s), curr_timestep s).
Proof. split; reflexivity. Qed.

Lemma with_save_id (c : config) : with_save c (save_intrinsic_reward c) = c.
Proof. by destruct c. Qed.

(** ** The high-water mark *)

(** C7 (the code at a failing input): after the first admitted trajectory,
    written at index 0 with length 1, [buffer_len] is still 0: the written
    trajectory is not below [buffer_len] and the storage is not ready. *)
Theorem C7_first_trajectory_not_counted :
  let s := (state_after (cfg_1_2_2 1) (always 0) [one_done_call 5]).1 in
  col 0 (prev_state (permanent s)) = [[5]; [0]]%Z ∧
  trajectory_lens s !! 0 = Some 1 ∧
  insert_idx s = 1 ∧
  buffer_len s = 0 ∧
  ready_for_update s = false.
Proof. vm_compute. done. Qed.

(** ** The admission gate *)

(** C3 (as stated) fails: with admission probability 0 and the draw 0, which
    lies in [[0,1)], trajectories are admitted and [buffer_len] leaves 0. *)
Lemma C3_zero_draw_passes_gate :
  ∃ w, reachable (cfg_1_2_2 0) (always 0) w ∧
       (∀ k, 0 <= always 0 k ∧ always 0 k < 1)%Q ∧
       vae_buffer_add_thresh (cfg_1_2_2 0) = 0%Q ∧
       insert_idx w.1 = 2 ∧ buffer_len w.1 = 1.
Proof.
  exists (state_after (cfg_1_2_2 0) (always 0) two_done_calls).
  split; [apply state_after_reachable|].
  split; [intros k; unfold always; split; [apply Qle_refl | reflexivity]|].
  vm_compute. done.
Qed.

(** ** The running task *)


(** ** Fast path and slow path *)

(** C1 (the code at a failing input): from the constructed state, where all
    cursors are 0, the two paths write a batch differently: the slow path
    stores the task-completion flags in the episode-completion series and
    leaves the supplied task descriptor out. *)
Theorem C1_fast_and_slow_paths_differ :
  ∃ sf ss,
    fast_insert cfg_2_2_2 batch_flags_differ (Some [[7]; [8]]%Z) (init cfg_2_2_2) = Ok sf ∧
    slow_path cfg_2_2_2 batch_flags_differ (init cfg_2_2_2) = Ok ss ∧
    done_episode (running sf) = [[[1]; [1]]; [[0]; [0]]]%Z ∧
    done_episode (running ss) = [[[0]; [0]]; [[0]; [0]]]%Z ∧
    running_tasks sf = Some [[7]; [8]]%Z ∧
    running_tasks ss = Some [[0]; [0]]%Z ∧
    running_part sf ≠ running_part ss.
Proof.
  eexists _, _. split; [vm_compute; reflexivity|]. split; [vm_compute; reflexivity|].
  repeat split; try reflexivity. discriminate.
Qed.

(** *** Rejected trajectories leave the ring buffer alone *)

Lemma gated_write_rejected c u write s k :
  gate c (u k) = false →
  ∃ k', gated_write c u write (s, k) = Ok (s, k').
Proof.
  intros Hg. unfold gated_write. rewrite Hg. destruct (0 <? max_buffer_size c); eauto.
Qed.

Lemma insert_rejecting_ring_part c u x done task w w' :
  (∀ k, gate c (u k) = false) →
  insert c u x done task w = Ok w' → ring_part w'.1 = ring_part w.1.
Proof.
  intros Hg Hrun. destruct w as [s k]. unfold insert in Hrun. simpl.
  apply bind_Ok in Hrun as ([s1 ai] & H1 & Hrun).
  apply bind_Ok in Hrun as ([w2 ar] & H2 & Hrun).
  assert (ring_part s1 = ring_part s) as Hs1.
  { clear Hrun H2. destruct (one_unique (curr_timestep s)); [|by inv_res].
    unfold fast_insert in H1. by inv_res. }
  assert (ring_part w2.1 = ring_part s) as Hw2.
  { clear Hrun H1. destruct (sum_done done =? num_processes c); [|by inv_res].
    unfold dump_all in H2. destruct (gated_write_rejected c u (write_all c) s1 k (Hg k)) as [k' Hk'].
    rewrite Hk' in H2. by inv_res. }
  clear H1 H2. destruct (negb ai || negb ar); [|by inv_res].
  eapply (for_each_inv (λ w, ring_part w.1 = ring_part s)); [|exact Hw2|eassumption].
  clear - Hg. intros i [s1 k1] w' Hinv Hstep. unfold actor_step in Hstep. simpl in *.
  apply bind_Ok in Hstep as ([s2 k2] & H1 & Hstep).
  assert (ring_part s2 = ring_part s) as Hs2.
  { clear Hstep. destruct ai; [by inv_res|]. unfold slow_insert in H1. by inv_res. }
  clear H1. destruct ar; [by inv_res|].
  apply bind_Ok in Hstep as (d & _ & Hstep). destruct d; [|by inv_res].
  unfold dump_one in Hstep.
  destruct (gated_write_rejected c u (write_one c i) s2 k2 (Hg k2)) as [k' Hk'].
  rewrite Hk' in Hstep. by inv_res.
Qed.

Lemma rejecting_reachable_ring_part c u w :
  (∀ k, gate c (u k) = false) →
  reachable c u w → ring_part w.1 = ring_part (init c).
Proof.
  intros Hg. induction 1 as [|w x dn task w' _ IH Hrun]; [done|].
  rewrite <- IH. eapply insert_rejecting_ring_part; eassumption.
Qed.

Lemma gate_zero_false c u :
  (vae_buffer_add_thresh c == 0)%Q → (0 <= u)%Q → ¬ (u == 0)%Q → gate c u = false.
Proof.
  intros Hp Hu Hne. unfold gate. apply not_true_is_false. intros Hle.
  apply Qle_bool_iff in Hle. rewrite Hp in Hle. apply Hne. by apply Qle_antisym.
Qed.

Lemma gate_one_true c u :
  (vae_buffer_add_thresh c == 1)%Q → (u < 1)%Q → gate c u = true.
Proof.
  intros Hp Hu. unfold gate. apply Qle_bool_iff. rewrite Hp. by apply Qlt_le_weak.
Qed.

(** C3 (as amended): for draws in [[0,1)], with admission probability 0 no
    trajectory is admitted as long as no draw is exactly 0 (the ring buffer
    stays as constructed, so [buffer_len] and [insert_idx] stay 0), and with
    admission probability 1 and a ring buffer that exists, both admission
    shapes write the completed trajectories whatever the draw. *)
Theorem C3_admission_edge_cases (c : config) (u : nat → Q) :
  (∀ k, 0 <= u k ∧ u k < 1)%Q →
  (∀ w, (∀ k, ¬ (u k == 0)%Q) → reachable (with_thresh c 0) u w →
        ring_part w.1 = ring_part (init c) ∧ buffer_len w.1 = 0 ∧ insert_idx w.1 = 0) ∧
  (0 < max_buffer_size c → ∀ s k i,
     dump_one (with_thresh c 1) u i (s, k) =
       (s' ← write_one (with_thresh c 1) i s; Ok (reset_one (with_thresh c 1) i s', S k)) ∧
     dump_all (with_thresh c 1) u (s, k) =
       (s' ← write_all (with_thresh c 1) s; Ok (reset_all (with_thresh c 1) s', S k))).
Proof.
  intros Hu. split.
  - intros w Hne Hw.
    assert (ring_part w.1 = ring_part (init c)) as Hr.
    { change (init c) with (init (with_thresh c 0)).
      apply (rejecting_reachable_ring_part _ u); [|done].
      intros k. apply gate_zero_false; [reflexivity | apply Hu | apply Hne]. }
    split; [done|]. unfold ring_part in Hr. by inversion Hr.
  - intros HM s k i.
    assert (gate (with_thresh c 1) (u k) = true) as Hg.
    { apply gate_one_true; [reflexivity | apply Hu]. }
    apply Nat.ltb_lt in HM.
    unfold dump_one, dump_all, gated_write. simpl. rewrite HM, Hg. split.
    + by destruct (write_one _ i s).
    + by destruct (write_all _ s).
Qed.

Lemma C3_admission_edge_cases_witness :
  (∀ k, 0 <= always (1 # 2) k ∧ always (1 # 2) k < 1)%Q ∧
  buffer_len (state_after (with_thresh (cfg_1_2_2 1) 0) (always (1 # 2)) two_done_calls).1 = 0.
Proof.
  assert (∀ k, 0 <= always (1 # 2) k ∧ always (1 # 2) k < 1)%Q as Hu.
  { intros k. unfold always. split; [discriminate | reflexivity]. }
  split; [exact Hu|].
  apply (C3_admission_edge_cases (cfg_1_2_2 1) (always (1 # 2)) Hu).
  - intros k. unfold always. discriminate.
  - apply state_after_reachable.
Defined.

(** *** The running task on the fast path *)






(** ** Sampling *)

Lemma take_items_Ok {A} (l : list A) (idxs : list nat) :
  Forall (λ j, j < length l) idxs →
  ∃ r, take_items l idxs = Ok r ∧ length r = length idxs.
Proof.
  induction 1 as [|j idxs Hj _ (r & Hr & Hlen)]; simpl; [by eexists|].
  apply lookup_lt_is_Some_2 in Hj as [a Ha].
  unfold item. rewrite Ha. simpl. rewrite Hr. simpl.
  eexists. split; [done|]. simpl. by rewrite Hlen.
Qed.

Lemma gather_row_length idxs a : Forall (λ r, length r = length idxs) (gather idxs a).
Proof.
  unfold gather. apply Forall_fmap, Forall_true. intros r. simpl. by rewrite length_map.
Qed.

Lemma get_batch_draws (c : config) (choice : nat → nat → bool → list nat)
    (u : nat → Q) (w : storage * nat) (n : nat) (replace vp mb : bool) :
  choice_spec choice →
  reachable c u w →
  0 < buffer_len w.1 →
  let idxs := rollout_indices choice w.1 n replace in
  length idxs = n `min` buffer_len w.1 ∧
  Forall (λ j, j < buffer_len w.1) idxs ∧
  (replace = false → NoDup idxs) ∧
  match get_batch c choice w.1 n replace vp mb with
  | Ok b =>
      take_items (trajectory_lens w.1) idxs = Ok (batch_lens b) ∧
      batch_prev_obs b = gather idxs (prev_state (permanent w.1)) ∧
      length (batch_lens b) = n `min` buffer_len w.1 ∧
      Forall (λ r, length r = n `min` buffer_len w.1) (batch_prev_obs b)
  | Raise _ => vp = false ∧ mb = true ∧ tasks w.1 = None
  end.
Proof.
  intros Hch Hw Hpos idxs. destruct w as [s k]. simpl in *.
  destruct (reachable_ring_inv _ _ _ Hw) as (_ & Hbl & Hlens & _). simpl in *.
  destruct (Hch (buffer_len s) (buffer_len s `min` n) replace) as (Hlen & Hlt & Hnd); [lia|].
  fold (rollout_indices choice s n replace) in Hlen, Hlt, Hnd. fold idxs in Hlen, Hlt, Hnd.
  assert (length idxs = n `min` buffer_len s) as Hlen' by lia.
  split; [done|]. split; [done|]. split; [done|].
  destruct (take_items_Ok (trajectory_lens s) idxs) as (r & Hr & Hrl).
  { eapply Forall_impl; [exact Hlt|]. simpl. intros j Hj. lia. }
  pose proof (gather_row_length idxs (prev_state (permanent s))) as Hrows.
  rewrite Hlen' in Hrows.
  unfold get_batch. fold idxs.
  assert ((max_buffer_size c =? 0) = false) as -> by (apply Nat.eqb_neq; lia).
  rewrite Hr. simpl.
  destruct vp; [simpl; split_and!; (done || lia)|].
  destruct mb; [|simpl; split_and!; (done || lia)].
  destruct (tasks s); simpl; [split_and!; (done || lia) | done].
Qed.

(** C8: in a reachable state with [buffer_len > 0], [get_batch] draws
    [min n buffer_len] indices, all below [buffer_len] and pairwise distinct
    when [replace] is false, and the batch it returns holds exactly the
    trajectories at these indices.  The one call that raises instead is the
    memory batch of a storage with no task descriptors. *)
Theorem C8_get_batch_sampling (c : config) (choice : nat → nat → bool → list nat)
    (u : nat → Q) (w : storage * nat) (n : nat) (replace vp mb : bool) :
  choice_spec choice →
  reachable c u w →
  0 < buffer_len w.1 →
  let idxs := rollout_indices choice w.1 n replace in
  length idxs = n `min` buffer_len w.1 ∧
  Forall (λ j, j < buffer_len w.1) idxs ∧
  (replace = false → NoDup idxs) ∧
  match get_batch c choice w.1 n replace vp mb with
  | Ok b =>
      take_items (trajectory_lens w.1) idxs = Ok (batch_lens b) ∧
      batch_prev_obs b = gather idxs (prev_state (permanent w.1)) ∧
      length (batch_lens b) = n `min` buffer_len w.1 ∧
      Forall (λ r, length r = n `min` buffer_len w.1) (batch_prev_obs b)
  | Raise _ => vp = false ∧ mb = true ∧ tasks w.1 = None
  end.
Proof. apply get_batch_draws. Qed.

Lemma C8_get_batch_sampling_witness :
  choice_spec (λ _ k _, seq 0 k) ∧
  length (rollout_indices (λ _ k _, seq 0 k)
            (state_after (cfg_1_2_2 1) (always 0) two_done_calls).1 5 false) =
    5 `min` buffer_len (state_after (cfg_1_2_2 1) (always 0) two_done_calls).1.
Proof.
  assert (choice_spec (λ _ k _, seq 0 k)) as Hch.
  { intros n k r Hk. rewrite length_seq. split; [done|]. split.
    - apply Forall_seq. intros j Hj. lia.
    - intros _. apply NoDup_seq. }
  split; [exact Hch|].
  assert (0 < buffer_len (state_after (cfg_1_2_2 1) (always 0) two_done_calls).1) as Hpos
    by (vm_compute; lia).
  exact (proj1 (C8_get_batch_sampling (cfg_1_2_2 1) _ (always 0)
                  (state_after (cfg_1_2_2 1) (always 0) two_done_calls) 5 false false false
                  Hch (state_after_reachable _ _ _) Hpos)).
Defined.

(** ** Tensors, slot by slot *)





(** ** Field by field *)



Lemma items_Ok c x j :
  fields_Forall (save_intrinsic_reward c) (λ f : row, j < length f) x →
  ∃ xi, items c x j = Ok xi.
Proof.
  intros (H1&H2&H3&H4&H5&H6&H7&H8&H9). unfold items, item.
  apply lookup_lt_is_Some_2 in H1 as [? ->], H2 as [? ->], H3 as [? ->], H4 as [? ->],
    H5 as [? ->], H6 as [? ->], H7 as [? ->]. simpl.
  destruct (save_intrinsic_reward c); simpl; [|by eexists].
  destruct (lookup_lt_is_Some_2 _ _ (H9 eq_refl)) as [? ->]. simpl. by eexists.
Qed.



(** ** A rejected trajectory *)








(** ** The ring buffer wraps *)

Lemma succ_mod n C :
  0 < C → 0 < n →
  n mod C = (if C <? (n - 1) mod C + 1 + 1 then 0 else (n - 1) mod C + 1).
Proof.
  intros HC Hn. pose proof (Nat.div_mod_eq (n - 1) C) as Hdm.
  pose proof (Nat.mod_upper_bound (n - 1) C ltac:(lia)) as Hub.
  destruct (C <? (n - 1) mod C + 1 + 1) eqn:E; ltb_prop.
  - symmetry. apply (Nat.mod_unique n C ((n - 1) / C + 1) 0); [lia|]. nia.
  - symmetry. apply (Nat.mod_unique n C ((n - 1) / C) ((n - 1) mod C + 1)); [lia|]. nia.
Qed.

Lemma mod_ne m n C : 0 < C → m < n → n < m + C → m mod C ≠ n mod C.
Proof.
  intros HC Hmn Hn Heq.
  pose proof (Nat.div_mod_eq m C). pose proof (Nat.div_mod_eq n C).
  assert (m / C < n / C) by nia. nia.
Qed.

Lemma length_col i (a : tensor) : length (col i a) = length a.
Proof. unfold col. by rewrite length_map. Qed.

Lemma col_set_col_eq j (cv : list vec) (p : tensor) :
  length cv = length p → Forall (λ r, j < length r) p → col j (set_col j cv p) = cv.
Proof.
  unfold col, set_col. revert p. induction cv as [|v cv IH]; intros [|r p] Hlen Hrows;
    simpl in *; try done.
  inversion Hrows; subst. rewrite list_lookup_insert_eq by done. simpl.
  f_equal. apply IH; [lia | done].
Qed.

Lemma col_set_col_ne j j' (cv : list vec) (p : tensor) :
  j' ≠ j → length cv = length p → col j' (set_col j cv p) = col j' p.
Proof.
  intros Hne. unfold col, set_col. revert p.
  induction cv as [|v cv IH]; intros [|r p] Hlen; simpl in *; try done.
  rewrite list_lookup_insert_ne by done. f_equal. apply IH. lia.
Qed.

Lemma set_col_shape t n j (cv : list vec) (p : tensor) :
  length cv = t → tensor_shape t n p → tensor_shape t n (set_col j cv p).
Proof.
  unfold tensor_shape, set_col. intros Hcv [Hlen Hrows]. split.
  - rewrite length_zip_with. lia.
  - clear Hlen Hcv. revert cv. induction Hrows as [|r p Hr _ IH]; intros [|v cv]; simpl;
      try constructor; [by rewrite length_insert | apply IH].
Qed.

Lemma zeros3_shape t n d : tensor_shape t n (zeros3 t n d).
Proof.
  unfold tensor_shape, zeros3, zeros2. rewrite length_replicate. split; [done|].
  apply Forall_replicate. by rewrite length_replicate.
Qed.

Lemma fields_Forall_assign_all {A B} save (P : B → Prop) (Q : A → Prop)
    (f : A → B → B) (x : fields A) (y : fields B) :
  (∀ a b, Q a → P b → P (f a b)) →
  fields_Forall save Q x → fields_Forall true P y →
  fields_Forall true P (assign save f x y).
Proof.
  intros Hf (?&?&?&?&?&?&?&?&Hx) (?&?&?&?&?&?&?&?&Hy).
  unfold fields_Forall, assign. simpl. split_and!; auto.
  intros _. destruct save; auto.
Qed.

Lemma fields_Forall2_assign_new {A B} save (P : B → Prop) (Q : A → Prop)
    (R : B → A → Prop) (f : A → B → B) (x : fields A) (y : fields B) :
  (∀ a b, Q a → P b → R (f a b) a) →
  fields_Forall save Q x → fields_Forall true P y →
  fields_Forall2 save R (assign save f x y) x.
Proof.
  intros Hf (?&?&?&?&?&?&?&?&Hx) (?&?&?&?&?&?&?&?&Hy).
  unfold fields_Forall2, assign. simpl. split_and!; auto.
  intros ->. auto.
Qed.

Lemma fields_Forall2_assign_old {A B Z} save (P : B → Prop) (Q : A → Prop)
    (R : B → Z → Prop) (f : A → B → B) (x : fields A) (y : fields B) (z : fields Z) :
  (∀ a b z, Q a → P b → R b z → R (f a b) z) →
  fields_Forall save Q x → fields_Forall true P y →
  fields_Forall2 save R y z →
  fields_Forall2 save R (assign save f x y) z.
Proof.
  intros Hf (?&?&?&?&?&?&?&?&Hx) (?&?&?&?&?&?&?&?&Hy) (?&?&?&?&?&?&?&?&Hz).
  unfold fields_Forall2, assign. simpl. split_and!; eauto.
  intros ->. eauto.
Qed.

Lemma wrap_slot c n s :
  0 < max_buffer_size c →
  insert_idx s = (if n =? 0 then 0 else (n - 1) mod max_buffer_size c + 1) →
  buffer_len s ≤ max_buffer_size c →
  ∃ bl, where_to_insert c 1 s = (bl, n mod max_buffer_size c) ∧ bl ≤ max_buffer_size c.
Proof.
  intros HC Hidx Hbl. unfold where_to_insert. rewrite Hidx.
  destruct (n =? 0) eqn:En; ltb_prop.
  - subst n. rewrite Nat.Div0.mod_0_l.
    assert ((max_buffer_size c <? 0 + 1) = false) as -> by (apply Nat.ltb_ge; lia).
    eexists. split; [done|]. lia.
  - rewrite (succ_mod n (max_buffer_size c)) by lia.
    pose proof (Nat.mod_upper_bound (n - 1) (max_buffer_size c) ltac:(lia)).
    destruct (max_buffer_size c <? (n - 1) mod max_buffer_size c + 1 + 1);
      eexists; (split; [done|]); lia.
Qed.

Lemma wrap_step c l n a s :
  0 < max_buffer_size c →
  l !! n = Some a →
  source_ok c a →
  wrap_inv c l n s →
  ∃ s', write_from c a s = Ok s' ∧ wrap_inv c l (S n) s'.
Proof.
  intros HC Hla (Hi & Hsrc & Htk) ((Hperm & Hlens & Htasks) & Hidx & Hbl & Hold).
  destruct (wrap_slot c n s HC Hidx Hbl) as (bl & Hwhere & Hbl').
  pose proof (Nat.mod_upper_bound n (max_buffer_size c) ltac:(lia)) as Hj.
  set (j := n mod max_buffer_size c) in *.
  destruct (lookup_lt_is_Some_2 _ _ Hi) as [t Ht].
  unfold write_from, write_one.
  change (where_to_insert c 1 (with_running s (src_cur a) (src_running a) (src_tasks a)))
    with (where_to_insert c 1 s).
  rewrite Hwhere. simpl.
  assert (∃ tk',
    match tasks s with
    | Some tk =>
        match src_tasks a with
        | Some rt => v ← item rt (src_actor a); Ok (Some (<[j:=v]> tk))
        | None => Raise TypeError
        end
    | None => Ok None
    end = Ok tk' ∧
    (∀ tk1, tk' = Some tk1 → length tk1 = max_buffer_size c ∧ is_Some (task_dim c)) ∧
    (∀ tk1, tk' = Some tk1 → ∃ rt, src_tasks a = Some rt ∧ tk1 !! j = rt !! src_actor a) ∧
    (∀ j' tk1, j' ≠ j → tk' = Some tk1 → ∃ tk0, tasks s = Some tk0 ∧ tk1 !! j' = tk0 !! j'))
    as (tk' & -> & Htk1 & Htk2 & Htk3).
  { destruct (tasks s) as [tk|] eqn:Etk.
    - destruct (Htasks tk eq_refl) as [Hlen Hdim].
      destruct (Htk Hdim) as (rt & -> & Hirt).
      destruct (lookup_lt_is_Some_2 _ _ Hirt) as [v Hv].
      unfold item. rewrite Hv. simpl. eexists. split; [done|]. split_and!.
      + intros tk1 [= <-]. by rewrite length_insert.
      + intros tk1 [= <-]. exists rt. split; [done|].
        rewrite list_lookup_insert_eq by lia. done.
      + intros j' tk1 Hne [= <-]. exists tk. split; [done|].
        by rewrite list_lookup_insert_ne.
    - exists None. split; [done|]. split_and!; intros; done. }
  simpl. unfold item. rewrite Ht. simpl. eexists. split; [done|].
  unfold wrap_inv, ring_shape. simpl. split_and!.
  - eapply fields_Forall_assign_all; [|exact Hsrc|exact Hperm].
    intros r p Hr Hp. simpl in *. apply set_col_shape; [|done]. by rewrite length_col.
  - by rewrite length_insert.
  - done.
  - rewrite Nat.sub_0_r. fold j. lia.
  - done.
  - intros m a' Hm Hwin Hla'. destruct (decide (m = n)) as [->|Hne].
    + assert (a' = a) as -> by congruence. fold j. unfold holds. simpl. split_and!.
      * eapply fields_Forall2_assign_new; [|exact Hsrc|exact Hperm].
        intros r p Hr [Hp1 Hp2]. simpl in *. apply col_set_col_eq.
        -- rewrite length_col. lia.
        -- eapply Forall_impl; [exact Hp2|]. simpl. intros r0 Hr0. lia.
      * rewrite list_lookup_insert_eq by lia. done.
      * done.
    + assert (m mod max_buffer_size c ≠ j) as Hmj by (apply mod_ne; lia).
      destruct (Hold m a') as (Hf & Hl & Ht'); [lia | lia | done |].
      unfold holds. simpl. split_and!.
      * eapply fields_Forall2_assign_old; [|exact Hsrc|exact Hperm|exact Hf].
        intros r p z Hr [Hp1 Hp2] Hz. simpl in *.
        rewrite col_set_col_ne; [done | done |]. rewrite length_col. lia.
      * fold j. rewrite list_lookup_insert_ne by done. done.
      * intros tk1 Htk1'. destruct (Htk3 _ tk1 Hmj Htk1') as (tk0 & Htk0 & Heq).
        rewrite Heq. by apply Ht'.
Qed.

Lemma for_each_lookup_ind {A W} (P : nat → W → Prop) (body : A → W → result W)
    (l : list A) (w : W) :
  P 0 w →
  (∀ n a w, l !! n = Some a → P n w → ∃ w', body a w = Ok w' ∧ P (S n) w') →
  ∃ w', for_each body l w = Ok w' ∧ P (length l) w'.
Proof.
  intros H0 Hstep.
  assert (∀ l2 l1 w, l = l1 ++ l2 → P (length l1) w →
            ∃ w', for_each body l2 w = Ok w' ∧ P (length l) w') as Hgen.
  { induction l2 as [|a l2 IH]; intros l1 w0 Hl Hw0; simpl.
    - exists w0. split; [done|]. by rewrite Hl, length_app, Nat.add_0_r.
    - destruct (Hstep (length l1) a w0) as (w1 & Hb & Hw1); [|done|].
      { rewrite Hl. by rewrite list_lookup_middle. }
      rewrite Hb. simpl. apply (IH (l1 ++ [a])).
      + by rewrite <- app_assoc.
      + rewrite length_app. simpl. by rewrite Nat.add_1_r. }
  apply (Hgen l [] w); done.
Qed.

Lemma init_ring_shape c : ring_shape c (init c).
Proof.
  unfold ring_shape, init. simpl. split_and!.
  - unfold fields_Forall, zeros_fields. simpl. split_and!; try intros _; apply zeros3_shape.
  - by rewrite length_replicate.
  - intros tk Htk. destruct (0 <? max_buffer_size c); [|done].
    destruct (task_dim c) as [d|]; [|done]. simpl in Htk. inversion Htk.
    unfold zeros2. rewrite length_replicate. split; [done | by eexists].
Qed.

Lemma write_seq_wrap_inv c l :
  0 < max_buffer_size c →
  Forall (source_ok c) l →
  ∃ s', write_seq c l (init c) = Ok s' ∧ wrap_inv c l (length l) s'.
Proof.
  intros HC Hok. apply (for_each_lookup_ind (wrap_inv c l)).
  - unfold wrap_inv. split_and!; [apply init_ring_shape | done | simpl; lia |].
    intros m a Hm. lia.
  - intros n a w Hla Hw. apply wrap_step; [done | done | | done].
    rewrite Forall_lookup in Hok. eauto.
Qed.

(** C5: with capacity [C] and [0 < k < C], writing [C + k] trajectories one
    at a time through the singular admission returns with [insert_idx = k],
    and the ring buffer holds the [C] most recent ones, the trajectory
    number [m] in slot [m mod C]: the slots below [k] were overwritten by
    the trajectories [C], ..., [C + k - 1], the others still hold the
    trajectories [k], ..., [C - 1]. *)
Theorem C5_ring_buffer_wrap (c : config) (l : list source) (k : nat) :
  0 < k < max_buffer_size c →
  length l = max_buffer_size c + k →
  Forall (source_ok c) l →
  ∃ s', write_seq c l (init c) = Ok s' ∧
        insert_idx s' = k ∧
        (∀ m a, k ≤ m → l !! m = Some a → holds c s' (m mod max_buffer_size c) a) ∧
        (∀ j a, j < max_buffer_size c →
           l !! (if j <? k then max_buffer_size c + j else j) = Some a → holds c s' j a).
Proof.
  intros Hk Hlen Hok.
  destruct (write_seq_wrap_inv c l) as (s' & Hrun & _ & Hidx & _ & Hholds); [lia | done |].
  rewrite Hlen in Hidx, Hholds.
  assert (∀ m a, k ≤ m → l !! m = Some a → holds c s' (m mod max_buffer_size c) a) as Hrecent.
  { intros m a Hm Hla. apply Hholds; [|lia|done].
    apply lookup_lt_Some in Hla. lia. }
  exists s'. split_and!; [done | | done |].
  - assert ((max_buffer_size c + k =? 0) = false) as Hne by (apply Nat.eqb_neq; lia).
    rewrite Hne in Hidx. rewrite Hidx.
    rewrite <- (Nat.mod_unique (max_buffer_size c + k - 1) (max_buffer_size c) 1 (k - 1));
      lia.
  - intros j a Hj Hla. destruct (j <? k) eqn:Ejk; ltb_prop.
    + assert ((max_buffer_size c + j) mod max_buffer_size c = j) as Hm
        by (symmetry; apply (Nat.mod_unique _ _ 1 j); lia).
      pose proof (Hrecent (max_buffer_size c + j) a ltac:(lia) Hla) as Hh.
      by rewrite Hm in Hh.
    + pose proof (Hrecent j a ltac:(lia) Hla) as Hh.
      by rewrite Nat.mod_small in Hh by lia.
Qed.

Lemma C5_ring_buffer_wrap_witness :
  ∃ s', write_seq (cfg_1_2_2 1) [unit_source 5; unit_source 6; unit_source 7]
          (init (cfg_1_2_2 1)) = Ok s' ∧
        insert_idx s' = 1 ∧
        holds (cfg_1_2_2 1) s' 0 (unit_source 7) ∧
        holds (cfg_1_2_2 1) s' 1 (unit_source 6).
Proof.
  destruct (C5_ring_buffer_wrap (cfg_1_2_2 1)
              [unit_source 5; unit_source 6; unit_source 7] 1)
    as (s' & Hrun & Hidx & _ & Hslots).
  - simpl. lia.
  - reflexivity.
  - assert (∀ z, source_ok (cfg_1_2_2 1) (unit_source z)) as Hsrc.
    { intros z. unfold source_ok, unit_source. simpl. split_and!.
      - lia.
      - unfold fields_Forall. simpl. split_and!; done.
      - intros _. eexists. split; [done | simpl; lia]. }
    repeat constructor; apply Hsrc.
  - exists s'. split_and!; [done | done | |].
    + apply (Hslots 0); [simpl; lia | reflexivity].
    + apply (Hslots 1); [simpl; lia | reflexivity].
Defined.

(** ** The end-to-end scenario *)

(** C2 (as stated) fails: whatever actor 0 does at steps 3 and 4, the calls
    return with cursors that are not all 0; and when actor 0 just keeps
    stepping, [buffer_len] is 2, so [get_batch(3)] draws 2 indices, not 3. *)
Lemma C2_scenario_fails :
  (∀ d3 d4 : bool, ∃ w,
     inserts cfg_3_4_5 (always 0) (episode_calls d3 d4) (init cfg_3_4_5, 0) = Ok w ∧
     curr_timestep w.1 ≠ [0; 0; 0]) ∧
  (∃ w, inserts cfg_3_4_5 (always 0) (episode_calls false false) (init cfg_3_4_5, 0) = Ok w ∧
        take 3 (trajectory_lens w.1) = [2; 4; 4] ∧
        buffer_len w.1 = 2 ∧
        ∀ choice, choice_spec choice →
          length (rollout_indices choice w.1 3 false) = 2).
Proof.
  split.
  - intros [] []; eexists; (split; [vm_compute; reflexivity | discriminate]).
  - eexists. split; [vm_compute; reflexivity|]. simpl.
    split; [done|]. split; [done|].
    intros choice Hch. unfold rollout_indices. simpl.
    destruct (Hch 2 2 false) as (Hlen & _); [lia | done].
Qed.

Lemma episode_returns :
  inserts cfg_3_4_5 (always 0) (episode_calls false false) (init cfg_3_4_5, 0) =
    Ok (state_after cfg_3_4_5 (always 0) (episode_calls false false)).
Proof.
  unfold state_after.
  destruct (inserts cfg_3_4_5 (always 0) (episode_calls false false) (init cfg_3_4_5, 0))
    as [w|e] eqn:Hrun; [done|]. vm_compute in Hrun. discriminate.
Qed.

(** C2 (as amended): the scenario, with actor 0 stepping on without
    finishing at steps 3 and 4.  The calls return; the ring buffer holds
    three trajectories of lengths 2, 4, 4 at indices 0, 1, 2 and
    [insert_idx] is 3; the running slots of actors 1 and 2 are zero with
    cursor 0, while actor 0 has cursor 2; and [get_batch(3)] without
    replacement returns [min 3 buffer_len] trajectories at pairwise distinct
    indices below [buffer_len]. *)
Theorem C2_scenario (choice : nat → nat → bool → list nat) :
  choice_spec choice →
  ∃ w, inserts cfg_3_4_5 (always 0) (episode_calls false false) (init cfg_3_4_5, 0) = Ok w ∧
       insert_idx w.1 = 3 ∧
       take 3 (trajectory_lens w.1) = [2; 4; 4] ∧
       col 0 (prev_state (permanent w.1)) = [[1]; [4]; [0]; [0]]%Z ∧
       col 1 (prev_state (permanent w.1)) = [[2]; [5]; [8]; [11]]%Z ∧
       col 2 (prev_state (permanent w.1)) = [[3]; [6]; [9]; [12]]%Z ∧
       curr_timestep w.1 = [2; 0; 0] ∧
       fields_Forall false (zero_col 1) (running w.1) ∧
       fields_Forall false (zero_col 2) (running w.1) ∧
       (let idxs := rollout_indices choice w.1 3 false in
        length idxs = 3 `min` buffer_len w.1 ∧
        Forall (λ j, j < buffer_len w.1) idxs ∧
        NoDup idxs ∧
        ∃ b, get_batch cfg_3_4_5 choice w.1 3 false false false = Ok b ∧
             length (batch_lens b) = 3 `min` buffer_len w.1).
Proof.
  intros Hch.
  exists (state_after cfg_3_4_5 (always 0) (episode_calls false false)).
  split; [apply episode_returns|].
  split; [by vm_compute|]. split; [by vm_compute|]. split; [by vm_compute|].
  split; [by vm_compute|]. split; [by vm_compute|]. split; [by vm_compute|].
  split; [vm_compute; split_and!; first [done | repeat constructor]|].
  split; [vm_compute; split_and!; first [done | repeat constructor]|].
  assert (0 < buffer_len (state_after cfg_3_4_5 (always 0) (episode_calls false false)).1)
    as Hpos by (vm_compute; lia).
  pose proof (get_batch_draws cfg_3_4_5 choice (always 0) _ 3 false false false
                Hch (state_after_reachable _ _ _) Hpos) as (Hlen & Hlt & Hnd & Hget).
  cbv zeta. split_and!; [done | done | by apply Hnd |].
  destruct (get_batch cfg_3_4_5 choice _ 3 false false false) as [b|e];
    [|by destruct Hget as (_ & ? & _)].
  exists b. split; [done|]. by destruct Hget as (_ & _ & ? & _).
Qed.

Lemma C2_scenario_witness :
  choice_spec (λ _ k _, seq 0 k) ∧
  ∃ w, inserts cfg_3_4_5 (always 0) (episode_calls false false) (init cfg_3_4_5, 0) = Ok w ∧
       insert_idx w.1 = 3 ∧ take 3 (trajectory_lens w.1) = [2; 4; 4].
Proof.
  assert (choice_spec (λ _ k _, seq 0 k)) as Hch.
  { intros n k r Hk. rewrite length_seq. split; [done|]. split.
    - apply Forall_seq. intros j Hj. lia.
    - intros _. apply NoDup_seq. }
  split; [exact Hch|].
  destruct (C2_scenario _ Hch) as (w & Hrun & Hidx & Hlens & _).
  exists w. split_and!; assumption.
Defined.

(** * Further properties of the code *)

(** ** Errors of [insert] *)

(** X1: on the fast path, a shared cursor that has reached the horizon makes
    [insert] raise [IndexError] (line 81) instead of writing. *)
Theorem X1_insert_fast_overflow_raises (c : config) (u : nat → Q) (x : fields row)
    (dn : list bool) (task : option (list vec)) (s : storage) (k t : nat) :
  one_unique (curr_timestep s) = true →
  curr_timestep s !! 0 = Some t →
  max_traj_len c ≤ t →
  insert c u x dn task (s, k) = Raise IndexError.
Proof.
  intros Huniq Ht Hle. unfold insert. rewrite Huniq.
  unfold fast_insert, item. rewrite Ht. simpl.
  apply Nat.leb_le in Hle. by rewrite Hle.
Qed.

Lemma X1_insert_fast_overflow_raises_witness :
  insert (cfg_1_2_2 1) (always 0) (scalar_batch [7]%Z 0 0) [false] None
    ((state_after (cfg_1_2_2 1) (always 0) two_step_calls).1, 2) = Raise IndexError.
Proof.
  apply (X1_insert_fast_overflow_raises _ _ _ _ _ _ _ 2).
  - vm_compute. reflexivity.
  - vm_compute. reflexivity.
  - simpl. lia.
Defined.

(** X2: with no running task tensor (a storage built with [task_dim=None]
    that was never handed a task), the slow path raises [TypeError] at its
    first actor (line 162): such a storage works only while all actors
    share a cursor. *)
Theorem X2_insert_slow_without_tasks_raises (c : config) (u : nat → Q)
    (x : fields row) (dn : list bool) (task : option (list vec)) (s : storage)
    (k t : nat) :
  one_unique (curr_timestep s) = false →
  sum_done dn ≠ num_processes c →
  0 < num_processes c →
  curr_timestep s !! 0 = Some t →
  t < max_traj_len c →
  fields_Forall (save_intrinsic_reward c) (λ f : row, 0 < length f) x →
  running_tasks s = None →
  insert c u x dn task (s, k) = Raise TypeError.
Proof.
  intros Huniq Hsum HN Ht Hlt Hx Hrt. unfold insert. rewrite Huniq.
  apply Nat.eqb_neq in Hsum. rewrite Hsum.
  destruct (items_Ok c x 0 Hx) as [xi Hxi].
  apply Nat.leb_gt in Hlt.
  assert (slow_insert c x 0 s = Raise TypeError) as Hslow.
  { unfold slow_insert, item. rewrite Ht. cbn [mbind result_bind]. rewrite Hxi.
    cbn [mbind result_bind]. by rewrite Hlt, Hrt. }
  destruct (num_processes c) as [|n]; [lia|].
  cbn [mbind result_bind negb orb seq for_each]. unfold actor_step.
  cbn [fst snd]. by rewrite Hslow.
Qed.

Lemma X2_insert_slow_without_tasks_raises_witness :
  insert cfg_2_2_2_no_task (always 0) (scalar_batch [5; 6]%Z 0 0) [false; false] None
    (state_after cfg_2_2_2_no_task (always 0) [first_done_call]) = Raise TypeError.
Proof.
  assert (state_after cfg_2_2_2_no_task (always 0) [first_done_call] =
          ((state_after cfg_2_2_2_no_task (always 0) [first_done_call]).1, 1)) as ->
    by (vm_compute; reflexivity).
  apply (X2_insert_slow_without_tasks_raises _ _ _ _ _ _ _ 0).
  - vm_compute. reflexivity.
  - vm_compute. lia.
  - simpl. lia.
  - vm_compute. reflexivity.
  - simpl. lia.
  - unfold fields_Forall. simpl. split_and!; lia.
  - vm_compute. reflexivity.
Defined.

(** X3: a batched admission of more actors than the ring buffer has slots
    cannot be stored: when all actors finish at once, the gate passes and
    [num_processes > max_buffer_size > 0], [insert] raises [RuntimeError]
    (the block assignment of line 113). *)
Theorem X3_insert_block_too_large_raises (c : config) (u : nat → Q) (x : fields row)
    (dn : list bool) (task : option (list vec)) (s : storage) (k t : nat) :
  curr_timestep s !! 0 = Some t →
  t < max_traj_len c →
  sum_done dn = num_processes c →
  0 < max_buffer_size c < num_processes c →
  gate c (u k) = true →
  insert c u x dn task (s, k) = Raise RuntimeError.
Proof.
  intros Ht Hlt Hsum [HM HN] Hg. unfold insert.
  apply Nat.eqb_eq in Hsum. rewrite Hsum.
  apply Nat.ltb_lt in HM. apply Nat.leb_gt in Hlt.
  assert (∀ s0, dump_all c u (s0, k) = Raise RuntimeError) as Hdump.
  { intros s0. unfold dump_all, gated_write. rewrite HM, Hg.
    unfold write_all, where_to_insert.
    assert ((max_buffer_size c <? insert_idx s0 + num_processes c) = true) as ->
      by (apply Nat.ltb_lt; lia).
    assert ((max_buffer_size c <? 0 + num_processes c) = true) as ->
      by (apply Nat.ltb_lt; lia).
    done. }
  destruct (one_unique (curr_timestep s)).
  - unfold fast_insert, item. rewrite Ht. cbn [mbind result_bind]. rewrite Hlt.
    cbn [mbind result_bind]. by rewrite Hdump.
  - cbn [mbind result_bind]. by rewrite Hdump.
Qed.

Lemma X3_insert_block_too_large_raises_witness :
  insert cfg_2_2_1 (always 0) (scalar_batch [3; 4]%Z 0 0) [true; true] None
    (init cfg_2_2_1, 0) = Raise RuntimeError.
Proof.
  apply (X3_insert_block_too_large_raises _ _ _ _ _ _ _ 0).
  - reflexivity.
  - simpl. lia.
  - reflexivity.
  - simpl. lia.
  - reflexivity.
Defined.

(** ** A storage without permanent buffer *)

Lemma gated_write_disabled c u write s k :
  max_buffer_size c = 0 → gated_write c u write (s, k) = Ok (s, k).
Proof. intros HM. unfold gated_write. by rewrite HM. Qed.

Lemma insert_disabled c u x dn task w w' :
  max_buffer_size c = 0 →
  insert c u x dn task w = Ok w' → ring_part w'.1 = ring_part w.1 ∧ w'.2 = w.2.
Proof.
  intros HM Hrun. destruct w as [s k]. unfold insert in Hrun. simpl.
  apply bind_Ok in Hrun as ([s1 ai] & H1 & Hrun).
  apply bind_Ok in Hrun as ([w2 ar] & H2 & Hrun).
  assert (ring_part s1 = ring_part s) as Hs1.
  { clear Hrun H2. destruct (one_unique (curr_timestep s)); [|by inv_res].
    unfold fast_insert in H1. by inv_res. }
  assert (ring_part w2.1 = ring_part s ∧ w2.2 = k) as Hw2.
  { clear Hrun H1. destruct (sum_done dn =? num_processes c); [|by inv_res].
    unfold dump_all in H2. rewrite gated_write_disabled in H2 by done. by inv_res. }
  clear H1 H2. destruct (negb ai || negb ar); [|by inv_res].
  eapply (for_each_inv (λ w, ring_part w.1 = ring_part s ∧ w.2 = k));
    [|exact Hw2|eassumption].
  clear - HM. intros i [s1 k1] w' [Hinv Hk] Hstep. unfold actor_step in Hstep. simpl in *.
  apply bind_Ok in Hstep as ([s2 k2] & H1 & Hstep).
  assert (ring_part s2 = ring_part s ∧ k2 = k) as [Hs2 Hk2].
  { clear Hstep. destruct ai; [by inv_res|]. unfold slow_insert in H1. by inv_res. }
  clear H1. destruct ar; [by inv_res|].
  apply bind_Ok in Hstep as (d & _ & Hstep). destruct d; [|by inv_res].
  unfold dump_one in Hstep. rewrite gated_write_disabled in Hstep by done. by inv_res.
Qed.

(** X4: with [max_buffer_size = 0] the permanent buffer is disabled: no call
    of [insert] ever changes the ring buffer or takes a uniform draw, and
    the storage never becomes ready for an update. *)
Theorem X4_no_permanent_buffer (c : config) (u : nat → Q) (w : storage * nat) :
  max_buffer_size c = 0 →
  reachable c u w →
  ring_part w.1 = ring_part (init c) ∧ w.2 = 0 ∧ ready_for_update w.1 = false.
Proof.
  intros HM Hw.
  assert (ring_part w.1 = ring_part (init c) ∧ w.2 = 0) as [Hr Hk].
  { induction Hw as [|w x dn task w' _ [IH1 IH2] Hrun]; [done|].
    destruct (insert_disabled c u x dn task w w' HM Hrun) as [H1 H2].
    split; congruence. }
  split_and!; [done | done |].
  assert (buffer_len w.1 = 0) as Hb by (unfold ring_part in Hr; by inversion Hr).
  unfold ready_for_update, len. by rewrite Hb.
Qed.

Lemma X4_no_permanent_buffer_witness :
  ready_for_update (state_after cfg_1_2_0 (always 0) [one_done_call 5]).1 = false.
Proof.
  apply (X4_no_permanent_buffer cfg_1_2_0 (always 0)
           (state_after cfg_1_2_0 (always 0) [one_done_call 5]) eq_refl
           (state_after_reachable _ _ _)).
Defined.

(** ** Invariants of [insert], step by step *)

Lemma insert_preserves (P : storage → Prop) c u :
  (∀ x task s s', one_unique (curr_timestep s) = true →
     P s → fast_insert c x task s = Ok s' → P s') →
  (∀ x i s s', P s → slow_insert c x i s = Ok s' → P s') →
  (∀ s s', 0 < max_buffer_size c → P s → write_all c s = Ok s' → P s') →
  (∀ i s s', 0 < max_buffer_size c → P s → write_one c i s = Ok s' → P s') →
  (∀ s, P s → P (reset_all c s)) →
  (∀ i s, P s → P (reset_one c i s)) →
  ∀ x dn task w w', P w.1 → insert c u x dn task w = Ok w' → P w'.1.
Proof.
  intros Hfast Hslow Hwall Hwone Hrall Hrone x dn task [s k] w' Hs Hrun.
  assert (∀ write s0 k0 w0,
            (∀ s s', 0 < max_buffer_size c → P s → write s = Ok s' → P s') →
            P s0 → gated_write c u write (s0, k0) = Ok w0 → P w0.1) as Hgate.
  { intros write s0 k0 w0 Hw Hs0 Hg. unfold gated_write in Hg.
    destruct (0 <? max_buffer_size c) eqn:EM; [|by inv_res].
    ltb_prop. destruct (gate c (u k0)); [|by inv_res].
    apply bind_Ok in Hg as (s1 & Hs1 & Hg). inv_res. simpl. eauto. }
  unfold insert in Hrun. simpl in *.
  apply bind_Ok in Hrun as ([s1 ai] & H1 & Hrun).
  apply bind_Ok in Hrun as ([w2 ar] & H2 & Hrun).
  assert (P s1) as Hs1.
  { clear Hrun H2. destruct (one_unique (curr_timestep s)) eqn:Huniq; [|by inv_res].
    apply bind_Ok in H1 as (s' & Hf & H1). inv_res. eauto. }
  assert (P w2.1) as Hw2.
  { clear Hrun H1. destruct (sum_done dn =? num_processes c); [|by inv_res].
    apply bind_Ok in H2 as (w0 & Hd & H2). inv_res. unfold dump_all in Hd.
    apply bind_Ok in Hd as ([s2 k2] & Hg & Hd). inv_res. simpl.
    apply Hrall. apply (Hgate (write_all c) s1 k (s2, k2)); [exact Hwall | exact Hs1 | exact Hg]. }
  clear H1 H2. destruct (negb ai || negb ar); [|by inv_res].
  eapply (for_each_inv (λ w, P w.1)); [|exact Hw2|eassumption].
  clear Hrun Hw2 Hs1 Hs. intros i [s0 k0] w0 Hs0 Hstep.
  unfold actor_step in Hstep. simpl in *.
  apply bind_Ok in Hstep as ([s2 k2] & H1 & Hstep).
  assert (P s2) as Hs2.
  { clear Hstep. destruct ai; [by inv_res|].
    apply bind_Ok in H1 as (s' & Hsl & H1). inv_res. eauto. }
  clear H1. destruct ar; [by inv_res|].
  apply bind_Ok in Hstep as (d & _ & Hstep). destruct d; [|by inv_res].
  unfold dump_one in Hstep. apply bind_Ok in Hstep as ([s3 k3] & Hg & Hstep).
  inv_res. simpl. apply Hrone.
  apply (Hgate (write_one c i) s2 k2 (s3, k3)); [apply Hwone | exact Hs2 | exact Hg].
Qed.

Lemma reachable_preserves (P : storage → Prop) c u :
  P (init c) →
  (∀ x dn task w w', P w.1 → insert c u x dn task w = Ok w' → P w'.1) →
  ∀ w, reachable c u w → P w.1.
Proof. intros H0 Hstep w. induction 1; eauto. Qed.

(** ** The time axis *)









(** ** Task descriptors that are not stored *)




(** ** What was just written cannot be sampled *)

(** X7: while [buffer_len] has not passed the cursor (as in the first cycle
    of the ring buffer), a singular write that does not wrap stores the
    trajectory at index [insert_idx] and sets [buffer_len] to that very
    index, so that no [get_batch] call can return the trajectory until
    another one is written (lines 181, 196-197, 222-225). *)
Theorem X7_last_written_not_sampled (c : config)
    (choice : nat → nat → bool → list nat) (i : nat) (s s' : storage) :
  choice_spec choice →
  length (trajectory_lens s) = max_buffer_size c →
  insert_idx s < max_buffer_size c →
  buffer_len s ≤ insert_idx s →
  write_one c i s = Ok s' →
  trajectory_lens s' !! insert_idx s = curr_timestep s !! i ∧
  insert_idx s' = insert_idx s + 1 ∧
  buffer_len s' = insert_idx s ∧
  ∀ n replace, insert_idx s ∉ rollout_indices choice s' n replace.
Proof.
  intros Hch Hlens Hidx Hbl Hrun. unfold write_one, where_to_insert in Hrun.
  assert ((max_buffer_size c <? insert_idx s + 1) = false) as Hnw
    by (apply Nat.ltb_ge; lia).
  rewrite Hnw in Hrun.
  apply bind_Ok in Hrun as (tk & _ & Hrun).
  apply bind_Ok in Hrun as (t & Ht & Hrun).
  unfold item in Ht. destruct (curr_timestep s !! i) as [t0|] eqn:Ecur; [|done].
  inversion Ht; subst t0. inversion Hrun; subst s'; clear Hrun Ht. simpl.
  split_and!.
  - rewrite list_lookup_insert_eq by lia. done.
  - done.
  - lia.
  - intros n replace Hin. unfold rollout_indices in Hin. simpl in Hin.
    destruct (Hch (buffer_len s `max` insert_idx s)
                ((buffer_len s `max` insert_idx s) `min` n) replace) as (_ & Hlt & _);
      [lia|].
    rewrite Forall_forall in Hlt. apply Hlt in Hin. lia.
Qed.

Lemma X7_last_written_not_sampled_witness :
  choice_spec (λ _ k _, seq 0 k) ∧
  ∃ s', write_from (cfg_1_2_2 1) (unit_source 5) (init (cfg_1_2_2 1)) = Ok s' ∧
        buffer_len s' = 0 ∧ insert_idx s' = 1.
Proof.
  assert (choice_spec (λ _ k _, seq 0 k)) as Hch.
  { intros n k r Hk. rewrite length_seq. split; [done|]. split.
    - apply Forall_seq. intros j Hj. lia.
    - intros _. apply NoDup_seq. }
  split; [exact Hch|].
  destruct (write_from (cfg_1_2_2 1) (unit_source 5) (init (cfg_1_2_2 1))) as [s'|e] eqn:Hrun;
    [|by vm_compute in Hrun].
  exists s'. split; [done|].
  destruct (X7_last_written_not_sampled (cfg_1_2_2 1) _ 0 _ s' Hch
              (eq_refl : length (trajectory_lens
                 (with_running (init (cfg_1_2_2 1)) (src_cur (unit_source 5))
                    (src_running (unit_source 5)) (src_tasks (unit_source 5)))) = 2)
              ltac:(simpl; lia) ltac:(simpl; lia) Hrun) as (_ & Hi & Hb & _).
  split; [exact Hb | exact Hi].
Defined.

(** ** Simultaneous completion *)





(** ** What a write stores *)

(** X9: a singular write that returns stores, in the slot chosen by the wrap
    test, the whole running series of the actor for every field, its cursor
    as trajectory length and its task, and every other slot keeps the
    trajectory it held (lines 174-196). *)
Theorem X9_singular_write_stores_trajectory (c : config) (i : nat) (s s' : storage) :
  0 < max_buffer_size c →
  insert_idx s ≤ max_buffer_size c →
  ring_shape c s →
  fields_Forall (save_intrinsic_reward c) (λ r : tensor, length r = max_traj_len c)
    (running s) →
  write_one c i s = Ok s' →
  let j := (where_to_insert c 1 s).2 in
  j < max_buffer_size c ∧
  insert_idx s' = j + 1 ∧
  holds c s' j (source_of s i) ∧
  ∀ j' a, j' ≠ j → holds c s j' a → holds c s' j' a.
Proof.
  intros HM Hidx (Hperm & Hlens & Htasks) Hrun Hw. cbv zeta.
  assert ((where_to_insert c 1 s).2 < max_buffer_size c) as Hj.
  { unfold where_to_insert.
    destruct (max_buffer_size c <? insert_idx s + 1) eqn:E; ltb_prop; simpl; lia. }
  unfold write_one in Hw.
  destruct (where_to_insert c 1 s) as [bl j] eqn:Hwhere. simpl in Hj |- *.
  apply bind_Ok in Hw as (tk' & Htk & Hw).
  apply bind_Ok in Hw as (t & Ht & Hw).
  unfold item in Ht. destruct (curr_timestep s !! i) as [t0|] eqn:Ecur; [|done].
  inversion Ht; subst t0; clear Ht. inversion Hw; subst s'; clear Hw.
  split; [done|]. split; [done|]. split.
  - unfold holds, source_of. simpl. split_and!.
    + eapply fields_Forall2_assign_new; [|exact Hrun|exact Hperm].
      intros r p Hr [Hp1 Hp2]. simpl in *. apply col_set_col_eq.
      * rewrite length_col. lia.
      * eapply Forall_impl; [exact Hp2|]. simpl. intros r0 Hr0. lia.
    + rewrite list_lookup_insert_eq by lia. done.
    + intros tk1 ->. destruct (tasks s) as [tk|] eqn:Etk; [|done].
      destruct (running_tasks s) as [rt|]; [|done].
      apply bind_Ok in Htk as (v & Hv & Htk). inversion Htk; subst tk1.
      unfold item in Hv. destruct (rt !! i) as [v0|] eqn:Erti; [|done].
      inversion Hv; subst v0. exists rt. split; [done|].
      destruct (Htasks tk eq_refl) as [Hlen _].
      rewrite list_lookup_insert_eq by lia. done.
  - intros j' a Hne (Hf & Hl & Ht'). unfold holds. simpl. split_and!.
    + eapply fields_Forall2_assign_old; [|exact Hrun|exact Hperm|exact Hf].
      intros r p z Hr [Hp1 Hp2] Hz. simpl in *.
      rewrite col_set_col_ne; [done | done |]. rewrite length_col. lia.
    + rewrite list_lookup_insert_ne by done. done.
    + intros tk1 ->. destruct (tasks s) as [tk|] eqn:Etk; [|done].
      destruct (running_tasks s) as [rt|]; [|done].
      apply bind_Ok in Htk as (v & Hv & Htk). inversion Htk; subst tk1.
      rewrite list_lookup_insert_ne by done. by apply Ht'.
Qed.

Lemma X9_singular_write_stores_trajectory_witness :
  ∃ s', write_from (cfg_1_2_2 1) (unit_source 5) (init (cfg_1_2_2 1)) = Ok s' ∧
        holds (cfg_1_2_2 1) s' 0 (unit_source 5).
Proof.
  destruct (write_from (cfg_1_2_2 1) (unit_source 5) (init (cfg_1_2_2 1))) as [s'|e] eqn:Hrun;
    [|by vm_compute in Hrun].
  exists s'. split; [done|].
  refine (proj1 (proj2 (proj2 (X9_singular_write_stores_trajectory (cfg_1_2_2 1) 0
            (with_running (init (cfg_1_2_2 1)) (src_cur (unit_source 5))
               (src_running (unit_source 5)) (src_tasks (unit_source 5)))
            s' _ _ _ _ Hrun)))).
  - simpl. lia.
  - simpl. lia.
  - apply (init_ring_shape (cfg_1_2_2 1)).
  - unfold fields_Forall. simpl. split_and!; done.
Defined.

(** *** The block write *)

Lemma set_slice_lookup_in {A} j n i (b l : list A) :
  j ≤ length l → i < length b → set_slice j n b l !! (j + i) = b !! i.
Proof.
  intros Hj Hi. unfold set_slice.
  rewrite lookup_app_r by (rewrite length_take; lia).
  rewrite length_take. replace (j + i - j `min` length l) with i by lia.
  by rewrite lookup_app_l.
Qed.

Lemma set_slice_lookup_out {A} j n j' (b l : list A) :
  length b = n → j + n ≤ length l → j' < j ∨ j + n ≤ j' →
  set_slice j n b l !! j' = l !! j'.
Proof.
  intros Hb Hl [Hlo|Hhi]; unfold set_slice.
  - rewrite lookup_app_l by (rewrite length_take; lia). by rewrite lookup_take_lt.
  - rewrite lookup_app_r by (rewrite length_take; lia).
    rewrite length_take. rewrite lookup_app_r by lia.
    rewrite lookup_drop. f_equal. lia.
Qed.

Lemma length_set_slice {A} j n (b l : list A) :
  length b = n → j + n ≤ length l → length (set_slice j n b l) = length l.
Proof.
  intros Hb Hl. unfold set_slice. rewrite !length_app, length_take, length_drop. lia.
Qed.

Lemma col_set_cols_in j n i (b a : tensor) :
  length b = length a →
  Forall (λ r, i < length r) b → Forall (λ r, j ≤ length r) a →
  col (j + i) (set_cols j n b a) = col i b.
Proof.
  unfold col, set_cols. revert a.
  induction b as [|rb b IH]; intros [|ra a] Hlen Hb Ha; simpl in *; try done.
  inversion Hb; subst. inversion Ha; subst.
  rewrite set_slice_lookup_in by done. f_equal. apply IH; [lia | done | done].
Qed.

Lemma col_set_cols_out j n j' (b a : tensor) :
  length b = length a →
  Forall (λ r, length r = n) b → Forall (λ r, j + n ≤ length r) a →
  j' < j ∨ j + n ≤ j' →
  col j' (set_cols j n b a) = col j' a.
Proof.
  unfold col, set_cols. intros Hlen Hb Ha Hout. revert a Hlen Ha.
  induction Hb as [|rb b Hrb _ IH]; intros [|ra a] Hlen Ha; simpl in *; try done.
  inversion Ha; subst.
  rewrite set_slice_lookup_out by done. f_equal. apply IH; [lia | done].
Qed.

Lemma set_cols_shape t m j n (b a : tensor) :
  j + n ≤ m → tensor_shape t n b → tensor_shape t m a → tensor_shape t m (set_cols j n b a).
Proof.
  unfold tensor_shape, set_cols. intros Hfit [Hbl Hb] [Hal Ha]. split.
  - rewrite length_zip_with. lia.
  - clear Hbl Hal. revert a Ha.
    induction Hb as [|rb b Hrb _ IH]; intros [|ra a] Ha; simpl; try constructor.
    + inversion Ha; subst. apply length_set_slice; [done | lia].
    + inversion Ha; subst. by apply IH.
Qed.

(** X10: a block write that returns stores the trajectory of actor [i] in
    slot [j + i], where [j] is the offset chosen by the wrap test: every
    running series of the actor, its cursor as length and its task; the
    slots outside the block keep their trajectories, and the cursor ends
    at [j + num_processes] (lines 103-127). *)
Theorem X10_block_write_stores_trajectories (c : config) (s s' : storage) :
  ring_shape c s →
  fields_Forall (save_intrinsic_reward c)
    (tensor_shape (max_traj_len c) (num_processes c)) (running s) →
  length (curr_timestep s) = num_processes c →
  (∀ tk, tasks s = Some tk → ∃ rt, running_tasks s = Some rt ∧ length rt = num_processes c) →
  write_all c s = Ok s' →
  let j := (where_to_insert c (num_processes c) s).2 in
  j + num_processes c ≤ max_buffer_size c ∧
  insert_idx s' = j + num_processes c ∧
  (∀ i, i < num_processes c → holds c s' (j + i) (source_of s i)) ∧
  (∀ j' a, j' < j ∨ j + num_processes c ≤ j' → holds c s j' a → holds c s' j' a) ∧
  ring_shape c s'.
Proof.
  intros (Hperm & Hlens & Htasks) Hrun Hcur Hrt Hw. cbv zeta.
  unfold write_all in Hw.
  destruct (where_to_insert c (num_processes c) s) as [bl j] eqn:Hwhere. simpl.
  destruct (max_buffer_size c <? j + num_processes c) eqn:Efit; [done|]. ltb_prop.
  inversion Hw; subst s'; clear Hw. split; [done|]. split; [done|].
  assert (∀ tk1, match tasks s, running_tasks s with
                 | Some tk, Some rt => Some (set_slice j (num_processes c) rt tk)
                 | tk, _ => tk
                 end = Some tk1 →
            ∃ tk rt, tasks s = Some tk ∧ running_tasks s = Some rt ∧
                     length rt = num_processes c ∧ length tk = max_buffer_size c ∧
                     tk1 = set_slice j (num_processes c) rt tk) as Htk'.
  { intros tk1 Heq. destruct (tasks s) as [tk|] eqn:Etk; [|done].
    destruct (Hrt tk eq_refl) as (rt & Hrt1 & Hrt2). rewrite Hrt1 in Heq.
    inversion Heq. destruct (Htasks tk eq_refl) as [Hl _]. by exists tk, rt. }
  split_and!.
  - intros i Hi. unfold holds, source_of. simpl. split_and!.
    + eapply fields_Forall2_assign_new; [|exact Hrun|exact Hperm].
      intros a p [Ha1 Ha2] [Hp1 Hp2]. simpl in *. apply col_set_cols_in.
      * lia.
      * eapply Forall_impl; [exact Ha2|]. simpl. intros r Hr. lia.
      * eapply Forall_impl; [exact Hp2|]. simpl. intros r Hr. lia.
    + apply set_slice_lookup_in; lia.
    + intros tk1 Heq. destruct (Htk' tk1 Heq) as (tk & rt & _ & Hrt1 & Hl1 & Hl2 & ->).
      exists rt. split; [done|]. apply set_slice_lookup_in; lia.
  - intros j' a Hout (Hf & Hl & Ht'). unfold holds. simpl. split_and!.
    + eapply fields_Forall2_assign_old; [|exact Hrun|exact Hperm|exact Hf].
      intros r p z [Hr1 Hr2] [Hp1 Hp2] Hz. simpl in *.
      rewrite col_set_cols_out; [done | lia | done | | done].
      eapply Forall_impl; [exact Hp2|]. simpl. intros r0 Hr0. lia.
    + rewrite set_slice_lookup_out; [done | done | lia | done].
    + intros tk1 Heq. destruct (Htk' tk1 Heq) as (tk & rt & Htk & _ & Hl1 & Hl2 & ->).
      rewrite set_slice_lookup_out; [by apply Ht' | done | lia | done].
  - unfold ring_shape. simpl. split_and!.
    + eapply fields_Forall_assign_all; [|exact Hrun|exact Hperm].
      intros a p Ha Hp. by apply set_cols_shape.
    + rewrite length_set_slice; [done | done | lia].
    + intros tk1 Heq. destruct (Htk' tk1 Heq) as (tk & rt & Htk & _ & Hl1 & Hl2 & ->).
      split; [rewrite length_set_slice; [done | done | lia]|].
      by destruct (Htasks tk Htk).
Qed.

Lemma X10_block_write_stores_trajectories_witness :
  ∃ s', write_all cfg_3_4_5 (init cfg_3_4_5) = Ok s' ∧
        insert_idx s' = 3 ∧
        holds cfg_3_4_5 s' 2 (source_of (init cfg_3_4_5) 2).
Proof.
  destruct (write_all cfg_3_4_5 (init cfg_3_4_5)) as [s'|e] eqn:Hrun;
    [|by vm_compute in Hrun].
  exists s'.
  destruct (X10_block_write_stores_trajectories cfg_3_4_5 (init cfg_3_4_5) s')
    as (_ & Hidx & Hnew & _).
  - apply init_ring_shape.
  - unfold fields_Forall, init, zeros_fields. simpl.
    split_and!; try intros _; apply zeros3_shape.
  - reflexivity.
  - intros tk _. eexists. split; [reflexivity | reflexivity].
  - exact Hrun.
  - split; [done|]. split; [exact Hidx|]. apply (Hnew 2). simpl. lia.
Defined.

(** ** From the ring buffer to a batch *)

Lemma col_gather idxs k j (p : tensor) :
  idxs !! k = Some j → col k (gather idxs p) = col j p.
Proof.
  intros Hk. unfold col, gather. rewrite <- list_fmap_compose.
  apply list_fmap_ext. intros _ r _. simpl.
  by rewrite list_lookup_fmap, Hk.
Qed.

Lemma take_items_lookup {A} (l : list A) idxs r k j :
  take_items l idxs = Ok r → idxs !! k = Some j → r !! k = l !! j.
Proof.
  revert r k. induction idxs as [|j0 idxs IH]; intros r k Hrun Hk; [done|].
  simpl in Hrun. apply bind_Ok in Hrun as (a & Ha & Hrun).
  apply bind_Ok in Hrun as (r' & Hr' & Hrun). inversion Hrun; subst r.
  unfold item in Ha. destruct (l !! j0) as [a0|] eqn:El; [|done]. inversion Ha; subst a0.
  destruct k as [|k]; simpl in *.
  - inversion Hk; subst. done.
  - by apply IH.
Qed.

(** X11: what was written is what is read: if slot [j] of the ring buffer
    holds the trajectory of a running buffer and [get_batch] draws [j] as
    its [k]-th index, then trajectory [k] of the returned batch carries the
    actor's series of previous states, next states, actions and rewards (the
    intrinsic ones when they are saved and the batch is for value
    prediction) and its length (lines 227-235). *)
Theorem X11_get_batch_returns_written (c : config)
    (choice : nat → nat → bool → list nat) (s : storage) (n : nat)
    (replace vp mb : bool) (b : batch) (k j : nat) (a : source) :
  get_batch c choice s n replace vp mb = Ok b →
  rollout_indices choice s n replace !! k = Some j →
  holds c s j a →
  col k (batch_prev_obs b) = col (src_actor a) (prev_state (src_running a)) ∧
  col k (batch_next_obs b) = col (src_actor a) (next_state (src_running a)) ∧
  col k (batch_acts b) = col (src_actor a) (actions (src_running a)) ∧
  col k (batch_rews b) =
    col (src_actor a)
      (if save_intrinsic_reward c && vp then intrinsic_rewards (src_running a)
       else rewards (src_running a)) ∧
  batch_lens b !! k = src_cur a !! src_actor a.
Proof.
  intros Hget Hk ((Hps & Hns & Hac & Hrw & _ & _ & _ & _ & Hir) & Hlens & _).
  unfold get_batch in Hget.
  destruct (max_buffer_size c =? 0); [done|].
  apply bind_Ok in Hget as (lens & Hitems & Hget).
  pose proof (take_items_lookup _ _ _ _ _ Hitems Hk) as Hlk.
  assert (col k (if save_intrinsic_reward c && vp
                 then gather (rollout_indices choice s n replace)
                        (intrinsic_rewards (permanent s))
                 else gather (rollout_indices choice s n replace) (rewards (permanent s))) =
          col (src_actor a)
            (if save_intrinsic_reward c && vp then intrinsic_rewards (src_running a)
             else rewards (src_running a))) as Hrews.
  { destruct (save_intrinsic_reward c); simpl; [destruct vp; simpl|];
      rewrite (col_gather _ _ _ _ Hk); auto. }
  destruct vp; [|destruct mb; [destruct (tasks s)|]]; inversion Hget; subst b; simpl;
    rewrite ?(col_gather _ _ _ _ Hk); split_and!; try done; congruence.
Qed.

Lemma X11_get_batch_returns_written_witness :
  ∃ b, get_batch (cfg_1_2_2 1) (λ _ k _, seq 0 k) two_written 1 false false false = Ok b ∧
       col 0 (batch_prev_obs b) = [[5]; [0]]%Z ∧ batch_lens b !! 0 = Some 1.
Proof.
  destruct (get_batch (cfg_1_2_2 1) (λ _ k _, seq 0 k) two_written 1 false false false)
    as [b|e] eqn:Hget; [|by vm_compute in Hget].
  exists b.
  destruct (X11_get_batch_returns_written (cfg_1_2_2 1) _ two_written 1 false false false
              b 0 0 (unit_source 5) Hget) as (Hp & _ & _ & _ & Hl).
  - vm_compute. reflexivity.
  - unfold holds. vm_compute. split_and!; try done.
    intros tk Htk. inversion Htk. by eexists.
  - split; [done|]. split; [exact Hp | exact Hl].
Defined.

(** ** The slow path, actor by actor *)












(** ** The fast path *)



(** ** The slow path against the fast path *)

Lemma one_unique_all cur t :
  one_unique cur = true → cur !! 0 = Some t → Forall (λ t', t' = t) cur.
Proof.
  destruct cur as [|t0 ts]; [done|]. simpl. intros Hall [= ->].
  constructor; [done|]. induction ts as [|t1 ts IH]; [constructor|].
  simpl in Hall. apply andb_true_iff in Hall as [H1 H2]. ltb_prop.
  constructor; [done | by apply IH].
Qed.










(** ** Completion with different cursors *)






(** ** Overflow on the slow path *)

Lemma for_each_seq_raises {W} (P : nat → W → Prop) (body : nat → W → result W)
    (n i0 : nat) (e : exn) (w : W) :
  i0 < n →
  P 0 w →
  (∀ j w, j < i0 → P j w → body j w = Raise e ∨ ∃ w', body j w = Ok w' ∧ P (S j) w') →
  (∀ w, P i0 w → body i0 w = Raise e) →
  for_each body (seq 0 n) w = Raise e.
Proof.
  intros Hi0 H0 Hstep Hhit.
  assert (∀ m j w, j + m = n → j ≤ i0 → P j w →
            for_each body (seq j m) w = Raise e) as Hgen.
  { induction m as [|m IH]; intros j w0 Hjm Hj Hw0; [lia|]. simpl.
    destruct (decide (j = i0)) as [->|Hne].
    - by rewrite (Hhit w0 Hw0).
    - destruct (Hstep j w0) as [Hr|(w1 & Hb & Hw1)]; [lia | done | by rewrite Hr |].
      rewrite Hb. simpl. apply IH; [lia | lia | done]. }
  apply (Hgen n 0 w); [lia | lia | done].
Qed.

Lemma items_Ok_or_IndexError c x i :
  (∃ xi, items c x i = Ok xi) ∨ items c x i = Raise IndexError.
Proof.
  unfold items, item.
  destruct (prev_state x !! i); [|by right].
  destruct (next_state x !! i); [|by right].
  destruct (rewards x !! i); [|by right].
  destruct (masks x !! i); [|by right].
  destruct (bad_masks x !! i); [|by right]. simpl.
  destruct (save_intrinsic_reward c); simpl.
  - destruct (intrinsic_rewards x !! i); [|by right]. simpl.
    destruct (actions x !! i); [|by right].
    destruct (done_task x !! i); [|by right]. simpl. left. by eexists.
  - destruct (actions x !! i); [|by right].
    destruct (done_task x !! i); [|by right]. simpl. left. by eexists.
Qed.

Lemma overflow_slow_insert c x s j s0 :
  j < num_processes c →
  overflow_inv c s j (s0, 0) →
  slow_insert c x j s0 = Raise IndexError ∨
  ∃ s1, slow_insert c x j s0 = Ok s1 ∧ ring_part s1 = ring_part s0 ∧
        overflow_inv c s (S j) (s1, 0).
Proof.
  intros Hj ([rt Hrt] & Hlen & Hcur). simpl in *.
  destruct (lookup_lt_is_Some_2 (curr_timestep s0) j) as [t Ht]; [lia|].
  unfold slow_insert, item. rewrite Ht. cbn [mbind result_bind].
  destruct (items_Ok_or_IndexError c x j) as [[xi ->]| ->]; [|by left].
  cbn [mbind result_bind].
  destruct (max_traj_len c <=? t); [by left|]. rewrite Hrt. right.
  eexists. split; [done|]. split; [done|].
  unfold overflow_inv. simpl. split_and!.
  - by eexists.
  - by rewrite length_insert.
  - intros i Hi. rewrite list_lookup_insert_ne by lia. apply Hcur. lia.
Qed.

Lemma overflow_dump_one c u s j s1 k1 :
  j < num_processes c →
  overflow_inv c s (S j) (s1, 0) →
  dump_one c u j (s1, k1) = Raise IndexError ∨
  ∃ w', dump_one c u j (s1, k1) = Ok w' ∧ overflow_inv c s (S j) (w'.1, 0).
Proof.
  intros Hj ([rt Hrt] & Hlen & Hcur). simpl in *.
  assert (overflow_inv c s (S j) (reset_one c j s1, 0)) as Hreset.
  { unfold overflow_inv. simpl. rewrite Hrt. split_and!.
    - by eexists.
    - by rewrite length_insert.
    - intros i Hi. rewrite list_lookup_insert_ne by lia. apply Hcur. lia. }
  unfold dump_one, gated_write.
  destruct (0 <? max_buffer_size c); [|right; by eexists].
  destruct (gate c (u k1)); [|right; by eexists].
  destruct (lookup_lt_is_Some_2 (curr_timestep s1) j) as [t Ht]; [lia|].
  unfold write_one. destruct (where_to_insert c 1 s1) as [bl idx].
  rewrite Hrt. unfold item. rewrite Ht.
  destruct (tasks s1) as [tk|].
  - destruct (rt !! j) as [v|]; [|by left]. cbn [mbind result_bind]. right.
    eexists. split; [done|]. simpl.
    unfold overflow_inv. simpl. rewrite Hrt. split_and!.
    + by eexists.
    + by rewrite length_insert.
    + intros i Hi. rewrite list_lookup_insert_ne by lia. apply Hcur. lia.
  - cbn [mbind result_bind]. right.
    eexists. split; [done|]. simpl.
    unfold overflow_inv. simpl. rewrite Hrt. split_and!.
    + by eexists.
    + by rewrite length_insert.
    + intros i Hi. rewrite list_lookup_insert_ne by lia. apply Hcur. lia.
Qed.

(** X16: the slow path does not write past the horizon either.  When the
    cursors differ, not all actors finish, a running task tensor exists and
    some actor's cursor has reached the horizon, [insert] raises
    [IndexError]: at that actor's write (line 151), unless an earlier actor
    already raised it. *)
Theorem X16_insert_slow_overflow_raises (c : config) (u : nat → Q) (x : fields row)
    (dn : list bool) (task : option (list vec)) (s : storage) (k i0 t : nat) :
  one_unique (curr_timestep s) = false →
  sum_done dn ≠ num_processes c →
  length (curr_timestep s) = num_processes c →
  is_Some (running_tasks s) →
  curr_timestep s !! i0 = Some t →
  max_traj_len c ≤ t →
  insert c u x dn task (s, k) = Raise IndexError.
Proof.
  intros Huniq Hsum Hlen Hrt Hi0 Hle. unfold insert. rewrite Huniq.
  apply Nat.eqb_neq in Hsum. rewrite Hsum. cbn [mbind result_bind negb orb].
  pose proof (lookup_lt_Some _ _ _ Hi0) as Hi0lt.
  apply (for_each_seq_raises (λ j w, overflow_inv c s j (w.1, 0)) _ _ i0); [lia | | |].
  - unfold overflow_inv. simpl. by split_and!.
  - intros j [s0 k0] Hj Hinv. cbn [fst] in Hinv. unfold actor_step. cbn [fst snd].
    destruct (overflow_slow_insert c x s j s0) as [->|(s1 & -> & _ & Hinv1)];
      [lia | done | by left |].
    cbn [mbind result_bind]. unfold item.
    destruct (dn !! j) as [[]|]; cbn [mbind result_bind].
    + destruct (overflow_dump_one c u s j s1 k0) as [->|(w' & -> & Hw')];
        [lia | done | by left |].
      right. by exists w'.
    + right. by eexists.
    + by left.
  - intros [s0 k0] (_ & _ & Hcur). simpl in Hcur. unfold actor_step. cbn [fst snd].
    unfold slow_insert, item. rewrite Hcur, Hi0 by lia. cbn [mbind result_bind].
    destruct (items_Ok_or_IndexError c x i0) as [[xi ->]| ->]; [|done].
    cbn [mbind result_bind]. apply Nat.leb_le in Hle. by rewrite Hle.
Qed.

Lemma X16_insert_slow_overflow_raises_witness :
  insert cfg_2_2_2 (always 0) (scalar_batch [7; 8]%Z 0 0) [false; false] None
    ((state_after cfg_2_2_2 (always 0) overflow_calls).1, 1) = Raise IndexError.
Proof.
  apply (X16_insert_slow_overflow_raises _ _ _ _ _ _ _ 1 2).
  - vm_compute. reflexivity.
  - vm_compute. lia.
  - vm_compute. reflexivity.
  - vm_compute. by eexists.
  - vm_compute. reflexivity.
  - simpl. lia.
Defined.

(** ** Cursors and lengths stay within the horizon *)

Lemma bounds_insert c u x dn task w w' :
  Forall (λ t, t ≤ max_traj_len c) (curr_timestep w.1) ∧
  Forall (λ t, t ≤ max_traj_len c) (trajectory_lens w.1) →
  insert c u x dn task w = Ok w' →
  Forall (λ t, t ≤ max_traj_len c) (curr_timestep w'.1) ∧
  Forall (λ t, t ≤ max_traj_len c) (trajectory_lens w'.1).
Proof.
  apply (insert_preserves
           (λ s, Forall (λ t, t ≤ max_traj_len c) (curr_timestep s) ∧
                 Forall (λ t, t ≤ max_traj_len c) (trajectory_lens s))).
  - intros x0 task0 s s' Huniq [Hc Hl] Hrun. unfold fast_insert in Hrun.
    apply bind_Ok in Hrun as (t & Ht & Hrun). unfold item in Ht.
    destruct (curr_timestep s !! 0) as [t0|] eqn:E0; [|done]. inversion Ht; subst t0.
    destruct (max_traj_len c <=? t) eqn:Et; [done|]. ltb_prop.
    inversion Hrun; subst s'. simpl. split; [|done].
    apply Forall_fmap. eapply Forall_impl; [exact (one_unique_all _ _ Huniq E0)|].
    simpl. intros t' ->. lia.
  - intros x0 i s s' [Hc Hl] Hrun. unfold slow_insert in Hrun.
    apply bind_Ok in Hrun as (t & Ht & Hrun).
    apply bind_Ok in Hrun as (xi & _ & Hrun).
    destruct (max_traj_len c <=? t) eqn:Et; [done|]. ltb_prop.
    destruct (running_tasks s); [|done]. inversion Hrun; subst s'. simpl.
    split; [|done]. apply Forall_insert; [done | lia].
  - intros s s' _ [Hc Hl] Hrun. unfold write_all in Hrun.
    destruct (where_to_insert c (num_processes c) s) as [bl j].
    destruct (max_buffer_size c <? j + num_processes c); [done|].
    inversion Hrun; subst s'. simpl. split; [done|]. unfold set_slice.
    rewrite !Forall_app. split_and!; [by apply Forall_take | done | by apply Forall_drop].
  - intros i s s' _ [Hc Hl] Hrun. unfold write_one in Hrun.
    destruct (where_to_insert c 1 s) as [bl j].
    apply bind_Ok in Hrun as (tk & _ & Hrun).
    apply bind_Ok in Hrun as (t & Ht & Hrun). unfold item in Ht.
    destruct (curr_timestep s !! i) as [t0|] eqn:Ei; [|done]. inversion Ht; subst t0.
    inversion Hrun; subst s'. simpl. split; [done|].
    apply Forall_insert; [done|]. rewrite Forall_lookup in Hc. eauto.
  - intros s [Hc Hl]. simpl. split; [|done].
    apply Forall_fmap, Forall_true. intros t. simpl. lia.
  - intros i s [Hc Hl]. simpl. split; [|done]. apply Forall_insert; [done | lia].
Qed.

(** X17: in every reachable state every cursor of the running buffer and
    every stored trajectory length is at most [max_traj_len]: [insert]
    advances a cursor only after a write below the horizon, and the lengths
    are copies of cursors. *)
Theorem X17_cursors_and_lengths_bounded (c : config) (u : nat → Q) (w : storage * nat) :
  reachable c u w →
  Forall (λ t, t ≤ max_traj_len c) (curr_timestep w.1) ∧
  Forall (λ t, t ≤ max_traj_len c) (trajectory_lens w.1).
Proof.
  apply (reachable_preserves
           (λ s, Forall (λ t, t ≤ max_traj_len c) (curr_timestep s) ∧
                 Forall (λ t, t ≤ max_traj_len c) (trajectory_lens s))).
  - unfold init. simpl. split; apply Forall_replicate; lia.
  - intros x dn task w0 w'. apply bounds_insert.
Qed.

Lemma X17_cursors_and_lengths_bounded_witness :
  reachable cfg_3_4_5 (always 0) (state_after cfg_3_4_5 (always 0) (episode_calls false false)) ∧
  Forall (λ t, t ≤ 4)
    (trajectory_lens (state_after cfg_3_4_5 (always 0) (episode_calls false false)).1).
Proof.
  split; [apply state_after_reachable|].
  apply (X17_cursors_and_lengths_bounded cfg_3_4_5 (always 0) _ (state_after_reachable _ _ _)).
Defined.

(** ** A storage with task descriptors *)




(** ** The uniform draws that a call takes *)

Lemma for_each_seq_inv {W} (P : nat → W → Prop) (body : nat → W → result W) n w w' :
  P 0 w →
  (∀ j w w', j < n → P j w → body j w = Ok w' → P (S j) w') →
  for_each body (seq 0 n) w = Ok w' → P n w'.
Proof.
  intros H0 Hstep.
  assert (∀ m j w0, j + m = n → P j w0 → for_each body (seq j m) w0 = Ok w' → P n w')
    as Hgen.
  { induction m as [|m IH]; intros j w0 Hjm Hw0 Hrun; simpl in Hrun.
    - assert (j = n) as <- by lia. inversion Hrun as [Heq]. by rewrite <- Heq.
    - apply bind_Ok in Hrun as (w1 & Hb & Hrun).
      apply (IH (S j) w1); [lia | | done]. eapply Hstep; [lia | done | done]. }
  apply (Hgen n 0 w); [lia | done].
Qed.

Lemma sum_done_take_S (dn : list bool) (j : nat) (d : bool) :
  dn !! j = Some d →
  sum_done (take (S j) dn) = sum_done (take j dn) + (if d then 1 else 0).
Proof.
  intros Hj. rewrite (take_S_r _ _ _ Hj). unfold sum_done.
  rewrite filter_app, length_app. f_equal. by destruct d.
Qed.

Lemma gated_write_counts c u write s k w' :
  0 < max_buffer_size c → gated_write c u write (s, k) = Ok w' → w'.2 = S k.
Proof.
  intros HM Hrun. unfold gated_write in Hrun. apply Nat.ltb_lt in HM. rewrite HM in Hrun.
  destruct (gate c (u k)); [|by inv_res].
  apply bind_Ok in Hrun as (s1 & _ & Hrun). by inv_res.
Qed.

(** X19: with a permanent buffer, a call of [insert] that returns has taken
    one uniform draw for the whole block when all actors finish at once, and
    otherwise one draw per finishing actor, admitted or not (lines 101 and
    172). *)
Theorem X19_draws_taken (c : config) (u : nat → Q) (x : fields row) (dn : list bool)
    (task : option (list vec)) (s s' : storage) (k k' : nat) :
  0 < max_buffer_size c →
  length dn = num_processes c →
  insert c u x dn task (s, k) = Ok (s', k') →
  k' = k + (if sum_done dn =? num_processes c then 1 else sum_done dn).
Proof.
  intros HM Hdn Hrun. unfold insert in Hrun.
  apply bind_Ok in Hrun as ([s1 ai] & H1 & Hrun).
  apply bind_Ok in Hrun as ([w2 ar] & H2 & Hrun).
  destruct (sum_done dn =? num_processes c) eqn:Eall.
  - apply bind_Ok in H2 as ([s2 k2] & Hd & H2). inversion H2; subst w2 ar; clear H2.
    unfold dump_all in Hd. apply bind_Ok in Hd as ([s3 k3] & Hg & Hd).
    apply gated_write_counts in Hg; [|done]. simpl in Hg. subst k3.
    inversion Hd; subst s2 k2; clear Hd.
    assert (∀ j w0 w1, actor_step c u x dn ai true j w0 = Ok w1 → w1.2 = w0.2) as Hstep.
    { intros j [s0 k0] w1 Hs. unfold actor_step in Hs.
      apply bind_Ok in Hs as (w0' & Hw0 & Hs). inversion Hs; subst w1.
      destruct ai; [by inv_res|].
      apply bind_Ok in Hw0 as (s4 & _ & Hw0). by inv_res. }
    destruct (negb ai || negb true).
    + apply (for_each_inv (λ w, w.2 = S k)) in Hrun; [simpl in Hrun; lia | | done].
      intros j w0 w1 Hw0 Hs. rewrite (Hstep _ _ _ Hs). done.
    + inversion Hrun. lia.
  - inversion H2; subst w2 ar; clear H2.
    destruct (negb ai || negb false) eqn:Eor; [|by destruct ai].
    apply (for_each_seq_inv (λ j w, w.2 = k + sum_done (take j dn))) in Hrun.
    + simpl in Hrun. rewrite Hrun. by rewrite <- Hdn, firstn_all.
    + simpl. unfold sum_done. simpl. lia.
    + clear Hrun. intros j [s0 k0] w1 Hj Hinv Hs. simpl in Hinv. subst k0.
      destruct (lookup_lt_is_Some_2 dn j) as [d Hd]; [lia|].
      rewrite (sum_done_take_S _ _ _ Hd).
      unfold actor_step in Hs. apply bind_Ok in Hs as ([s4 k4] & Hw0 & Hs).
      assert (k4 = k + sum_done (take j dn)) as ->.
      { destruct ai; [by inv_res|].
        apply bind_Ok in Hw0 as (s5 & _ & Hw0). by inv_res. }
      unfold item in Hs. rewrite Hd in Hs. cbn [mbind result_bind] in Hs.
      destruct d.
      * unfold dump_one in Hs. apply bind_Ok in Hs as ([s6 k6] & Hg & Hs).
        apply gated_write_counts in Hg; [|done]. simpl in Hg. subst k6.
        inversion Hs. simpl. lia.
      * inversion Hs. simpl. lia.
Qed.

Lemma X19_draws_taken_witness :
  ∃ s' k',
    insert cfg_3_4_5 (always 0) (scalar_batch [4; 5; 6]%Z 0 0) [true; false; false]
      (Some [[7]; [8]; [9]]%Z)
      ((state_after cfg_3_4_5 (always 0) (take 1 (episode_calls false false))).1, 0) =
      Ok (s', k') ∧
    k' = 1.
Proof.
  destruct (insert cfg_3_4_5 (always 0) (scalar_batch [4; 5; 6]%Z 0 0) [true; false; false]
              (Some [[7]; [8]; [9]]%Z)
              ((state_after cfg_3_4_5 (always 0) (take 1 (episode_calls false false))).1, 0))
    as [[s' k']|e] eqn:Hrun; [|by vm_compute in Hrun].
  exists s', k'. split; [done|].
  exact (X19_draws_taken cfg_3_4_5 (always 0) _ [true; false; false] _ _ s' 0 k'
           ltac:(simpl; lia) eq_refl Hrun).
Defined.
